(** * VimeoTranscript: the caption parser and the filler normalizer of app.py

    A shallow embedding of [src/app.py]: [sanitize_vtt] (the caption parser),
    [clean_hesitations] (the filler normalizer), [create_pdf] (the story it
    builds) and [setup_sanitize_download] (the button handler with its two
    calls of [download_subtitles_file]).

    Python text is a sequence of Unicode code points.  A character is a
    code point ([N]); a string is a list of them.  The classification of
    the ASCII range is written out; the classification of the code points
    above it is a table the development is parametric in (class
    [Unicode]), so every theorem holds for Python's table, whatever it
    says outside ASCII. *)

From Stdlib Require Import List NArith ZArith Bool Arith Lia Permutation.
From Stdlib Require String Ascii.
Import ListNotations String.StringSyntax.
Delimit Scope string_scope with string.

Set Implicit Arguments.
Local Open Scope N_scope.

(* ===================================================================== *)
(** ** Characters and strings *)
(* ===================================================================== *)

Definition char := N.
Definition str := list char.

(** A string literal of the source (ASCII), as a list of code points. *)
Definition py (s : String.string) : str :=
  map Ascii.N_of_ascii (String.list_ascii_of_string s).
Arguments py s%_string.

Definition LF : char := 10.
Definition CR : char := 13.
Definition SP : char := 32.
Definition COMMA : char := 44.
Definition DOT : char := 46.
Definition UNDERSCORE : char := 95.

Definition in_range (lo hi c : char) : bool := (N.leb lo c && N.leb c hi)%bool.

(** The ASCII part of [str.isalnum], [str.isspace] and [str.isdigit]
    (CPython's [_Py_ascii_whitespace]: TAB..CR, FS..US and the blank). *)
Definition ascii_alnum (c : char) : bool :=
  (in_range 48 57 c || in_range 65 90 c || in_range 97 122 c)%bool.
Definition ascii_space (c : char) : bool :=
  (in_range 9 13 c || in_range 28 32 c)%bool.
Definition ascii_digit (c : char) : bool := in_range 48 57 c.

(** The Unicode character database, above ASCII.  The one fact used about
    it: a whitespace character is not alphanumeric. *)
Class Unicode : Type := {
  uni_alnum : char -> bool;
  uni_space : char -> bool;
  uni_digit : char -> bool;
  uni_space_not_alnum : forall c, uni_space c = true -> uni_alnum c = false
}.

(** The table restricted to Latin-1 (U+0080..U+00FF), nothing classified
    above it: enough to evaluate the program on concrete inputs. *)
Definition latin1_alnum (c : char) : bool :=
  (N.eqb c 170 || N.eqb c 178 || N.eqb c 179 || N.eqb c 181 || N.eqb c 185
   || N.eqb c 186 || in_range 188 190 c || in_range 192 214 c
   || in_range 216 246 c || in_range 248 255 c)%bool.
Definition latin1_space (c : char) : bool := (N.eqb c 133 || N.eqb c 160)%bool.
Definition latin1_digit (c : char) : bool :=
  (N.eqb c 178 || N.eqb c 179 || N.eqb c 185)%bool.

Definition latin1 : Unicode.
Proof.
  refine {| uni_alnum := latin1_alnum;
            uni_space := latin1_space;
            uni_digit := latin1_digit |}.
  intros c H. unfold latin1_space in H.
  apply orb_true_iff in H. destruct H as [H | H];
    apply N.eqb_eq in H; subst c; reflexivity.
Defined.

Section Program.

Context {U : Unicode}.

Definition isalnum (c : char) : bool :=
  if N.ltb c 128 then ascii_alnum c else uni_alnum c.
Definition isspace (c : char) : bool :=
  if N.ltb c 128 then ascii_space c else uni_space c.
Definition isdigit (c : char) : bool :=
  if N.ltb c 128 then ascii_digit c else uni_digit c.

(** [\w]: alphanumeric or the underscore. *)
Definition is_word (c : char) : bool := (isalnum c || N.eqb c UNDERSCORE)%bool.

(** Case folding as [re.IGNORECASE] applies it to a pattern letter: exact
    for every ASCII pattern character but i, k and s (the three letters
    with case variants outside ASCII); the patterns of the program hold
    only u, h and m. *)
Definition ascii_lower (c : char) : char :=
  if in_range 65 90 c then (c + 32) else c.

Definition char_eqb (ic : bool) (p c : char) : bool :=
  if ic then N.eqb (ascii_lower p) (ascii_lower c) else N.eqb p c.

Fixpoint takewhile (p : char -> bool) (s : str) : str :=
  match s with
  | c :: s' => if p c then c :: takewhile p s' else []
  | [] => []
  end.

Fixpoint dropwhile (p : char -> bool) (s : str) : str :=
  match s with
  | c :: s' => if p c then dropwhile p s' else s
  | [] => []
  end.

(** [str.strip()]: whitespace removed at both ends. *)
Definition lstrip (s : str) : str := dropwhile isspace s.
Definition rstrip (s : str) : str := rev (lstrip (rev s)).
Definition strip (s : str) : str := rstrip (lstrip s).

(* ===================================================================== *)
(** ** The part of Python's [re] the program uses *)
(* ===================================================================== *)

(** One-character items. *)
Inductive atom : Type :=
| Lit (c : char)            (* a literal character *)
| CharSet (cs : list char)  (* [...] *)
| Space.                    (* \s *)

(** Patterns.  A quantifier applies to a one-character item, as in every
    pattern of the program: [x?] is [Rep 0 (Some 1) x], [x+] is
    [Rep 1 None x], [x*] is [Rep 0 None x], [x{2,}] is [Rep 2 None x]. *)
Inductive regex : Type :=
| Empty
| Atom (a : atom)
| Boundary                                    (* \b *)
| Bol                                         (* ^ without MULTILINE *)
| Cat (r1 r2 : regex)
| Rep (lo : nat) (hi : option nat) (a : atom) (* greedy *)
| Group (r : regex).                          (* ( ... ) *)

Definition atom_matches (ic : bool) (a : atom) (c : char) : bool :=
  match a with
  | Lit p => char_eqb ic p c
  | CharSet cs => existsb (fun p => char_eqb ic p c) cs
  | Space => isspace c
  end.

Definition word_opt (o : option char) : bool :=
  match o with Some c => is_word c | None => false end.

(** [\b] holds between [prev] and the head of [s] when exactly one of the
    two is a word character (the ends of the text count as non-word). *)
Definition at_boundary (prev : option char) (s : str) : bool :=
  xorb (word_opt prev) (word_opt (hd_error s)).

(** The state of a match: the character before the position, the text
    from the position on, the groups closed so far. *)
Definition cont (R : Type) : Type := option char -> str -> list str -> option R.

(** Greedy repetition with backtracking: one more item first, then stop. *)
Fixpoint rep (R : Type) (ic : bool) (a : atom) (lo : nat) (hi : option nat)
    (prev : option char) (s : str) (g : list str) (k : cont R) : option R :=
  let stop := if Nat.eqb lo 0%nat then k prev s g else None in
  match hi with
  | Some 0%nat => stop
  | _ =>
    match s with
    | c :: s' =>
        if atom_matches ic a c then
          match rep ic a (pred lo) (option_map pred hi) (Some c) s' g k with
          | Some r => Some r
          | None => stop
          end
        else stop
    | [] => stop
    end
  end.

(** The backtracking matcher, in continuation-passing style. *)
Fixpoint matcher (R : Type) (ic : bool) (r : regex)
    (prev : option char) (s : str) (g : list str) (k : cont R) : option R :=
  match r with
  | Empty => k prev s g
  | Atom a =>
      match s with
      | c :: s' => if atom_matches ic a c then k (Some c) s' g else None
      | [] => None
      end
  | Boundary => if at_boundary prev s then k prev s g else None
  | Bol => match prev with None => k prev s g | Some _ => None end
  | Cat r1 r2 =>
      matcher ic r1 prev s g (fun prev' s' g' => matcher ic r2 prev' s' g' k)
  | Rep lo hi a => rep ic a lo hi prev s g k
  | Group r1 =>
      matcher ic r1 prev s g
        (fun prev' s' g' =>
           k prev' s' (g' ++ [firstn (length s - length s')%nat s]))
  end.

(** A match at the current position: the text that follows it, and its
    groups. *)
Definition match_at (ic : bool) (r : regex) (prev : option char) (s : str)
  : option (str * list str) :=
  matcher ic r prev s [] (fun _ s' g => Some (s', g)).

(** Replacement templates: literal text and group references. *)
Inductive repl_item : Type :=
| RLit (t : str)
| RGroup (n : nat).   (* \n, counted from 1 *)

Definition expand (repl : list repl_item) (g : list str) : str :=
  flat_map (fun it => match it with
                      | RLit t => t
                      | RGroup n => nth (pred n) g []
                      end) repl.

(** [re.sub]: the text is scanned from the left; a match is replaced and
    the scan goes on behind it; where there is none the character is
    kept.  [skip] counts the characters of the current match still to be
    passed over.  An empty match is replaced and the next character kept
    (Python 3.7 and later; with greedy quantifiers only, an empty first
    match means that nothing longer matches at that position).  None of
    the patterns of the program matches the empty text. *)
Fixpoint sub_scan (ic : bool) (r : regex) (repl : list repl_item)
    (skip : nat) (prev : option char) (s : str) : str :=
  match skip with
  | S n =>
      match s with
      | c :: s' => sub_scan ic r repl n (Some c) s'
      | [] => []
      end
  | O =>
      match match_at ic r prev s with
      | Some (rest, g) =>
          expand repl g ++
          match s with
          | [] => []
          | c :: s' =>
              match (length s - length rest)%nat with
              | O => c :: sub_scan ic r repl 0%nat (Some c) s'
              | S n => sub_scan ic r repl n (Some c) s'
              end
          end
      | None =>
          match s with
          | [] => []
          | c :: s' => c :: sub_scan ic r repl 0%nat (Some c) s'
          end
      end
  end.

Definition re_sub (ic : bool) (r : regex) (repl : list repl_item) (s : str)
  : str :=
  sub_scan ic r repl 0%nat None s.

(** [re.search(...) is not None]. *)
Fixpoint search_from (ic : bool) (r : regex) (prev : option char) (s : str)
  : bool :=
  match match_at ic r prev s with
  | Some _ => true
  | None =>
      match s with
      | [] => false
      | c :: s' => search_from ic r (Some c) s'
      end
  end.

Definition re_search (ic : bool) (r : regex) (s : str) : bool :=
  search_from ic r None s.

(** [re.escape(s)] followed by compilation: the pattern that matches the
    characters of [s] one after the other. *)
Definition re_escape (s : str) : regex :=
  fold_right (fun c r => Cat (Atom (Lit c)) r) Empty s.

Definition IGNORECASE : bool := true.
Definition NOFLAGS : bool := false.

(* ===================================================================== *)
(** ** [clean_hesitations] *)
(* ===================================================================== *)

Definition FILLERS : list str := [py "uh"; py "um"; py "hmm"].

(** [r'\b' + re.escape(filler) + r'[.,]?\b'] *)
Definition filler_pattern (filler : str) : regex :=
  Cat Boundary
    (Cat (re_escape filler)
       (Cat (Rep 0%nat (Some 1%nat) (CharSet (py ".,"))) Boundary)).

(** The loop over the fillers: one [re.sub] per filler, in order. *)
Definition remove_fillers (fillers : list str) (text : str) : str :=
  fold_left (fun text filler => re_sub IGNORECASE (filler_pattern filler) [] text)
            fillers text.

(** [r'\s{2,}'] *)
Definition spaces_pattern : regex := Rep 2%nat None Space.
(** [r'\s+([.,!?])'] *)
Definition space_punct_pattern : regex :=
  Cat (Rep 1%nat None Space) (Group (Atom (CharSet (py ".,!?")))).
(** [r'^,\s*'] *)
Definition leading_comma_pattern : regex :=
  Cat Bol (Cat (Atom (Lit COMMA)) (Rep 0%nat None Space)).

Definition collapse_spaces (text : str) : str :=
  re_sub NOFLAGS spaces_pattern [RLit (py " ")] text.
Definition fix_punct (text : str) : str :=
  re_sub NOFLAGS space_punct_pattern [RGroup 1%nat] text.
Definition drop_leading_comma (text : str) : str :=
  re_sub NOFLAGS leading_comma_pattern [] text.

(** The body of [clean_hesitations], for a list of fillers. *)
Definition clean_with (fillers : list str) (text : str) : str :=
  let text := remove_fillers fillers text in
  let text := collapse_spaces text in
  let text := fix_punct text in
  let text := drop_leading_comma text in
  strip text.

Definition clean_hesitations (text : str) : str := clean_with FILLERS text.

(* ===================================================================== *)
(** ** [sanitize_vtt] *)
(* ===================================================================== *)

(** The file is opened in text mode: on reading, CR LF and CR become LF
    (universal newlines).  The content is the decoded text of the file. *)
Fixpoint universal_newlines (s : str) : str :=
  match s with
  | [] => []
  | c :: s' =>
      if N.eqb c CR then
        LF :: match s' with
              | d :: s'' =>
                  if N.eqb d LF then universal_newlines s''
                  else universal_newlines s'
              | [] => []
              end
      else c :: universal_newlines s'
  end.

(** Iteration over the file: one line per LF, the LF kept at its end; a
    last line without LF is yielded as it is.  [cur] is the line read so
    far, reversed. *)
Fixpoint lines_from (cur : str) (s : str) : list str :=
  match s with
  | [] => match cur with [] => [] | _ => [rev cur] end
  | c :: s' =>
      if N.eqb c LF then rev (c :: cur) :: lines_from [] s'
      else lines_from (c :: cur) s'
  end.

Definition file_lines (content : str) : list str :=
  lines_from [] (universal_newlines content).

Definition is_empty (s : str) : bool :=
  match s with [] => true | _ => false end.

Fixpoint str_eqb (a b : str) : bool :=
  match a, b with
  | [], [] => true
  | x :: a', y :: b' => (N.eqb x y && str_eqb a' b')%bool
  | _, _ => false
  end.

(** [line.isdigit()]: at least one character, and all of them digits. *)
Definition str_isdigit (s : str) : bool :=
  (negb (is_empty s) && forallb isdigit s)%bool.

Fixpoint startswith (p s : str) : bool :=
  match p, s with
  | [], _ => true
  | x :: p', y :: s' => (N.eqb x y && startswith p' s')%bool
  | _ :: _, [] => false
  end.

(** [p in s] *)
Fixpoint contains (p s : str) : bool :=
  (startswith p s ||
   match s with
   | [] => false
   | _ :: s' => contains p s'
   end)%bool.

(** [sep.join(xs)] *)
Fixpoint join (sep : str) (xs : list str) : str :=
  match xs with
  | [] => []
  | [x] => x
  | x :: xs' => x ++ sep ++ join sep xs'
  end.

(** The body of the loop: the new value of [cleaned_lines].  Each
    [continue] leaves it as it was. *)
Definition sanitize_step (cleaned_lines : list str) (line : str) : list str :=
  let line := strip line in
  if is_empty line then cleaned_lines
  else if str_eqb line (py "WEBVTT") then cleaned_lines
  else if str_isdigit line then cleaned_lines
  else if contains (py "-->") line then cleaned_lines
  else cleaned_lines ++ [line].

(** The loop, over the lines of the file. *)
Definition sanitize_lines (lines : list str) : list str :=
  fold_left sanitize_step lines [].

(** [sanitize_vtt], on the content of the file it is given. *)
Definition sanitize_vtt (content : str) : str :=
  join (py " ") (sanitize_lines (file_lines content)).

(* ===================================================================== *)
(** ** [create_pdf] and [create_docx]: what they lay out *)
(* ===================================================================== *)

Inductive style : Type := Title | Normal.

Inductive flowable : Type :=
| Paragraph (text : str) (st : style)
| Spacer (width height : N).

(** [text.split(sep)] for a one-character separator: always at least one
    piece.  [cur] is the piece read so far, reversed. *)
Fixpoint split_from (sep : char) (cur : str) (s : str) : list str :=
  match s with
  | [] => [rev cur]
  | c :: s' =>
      if N.eqb c sep then rev cur :: split_from sep [] s'
      else split_from sep (c :: cur) s'
  end.

Definition split (sep : char) (s : str) : list str := split_from sep [] s.

(** The story [create_pdf] hands to [doc.build]: the flowables, with the
    text each paragraph is made from.  reportlab reads that text as markup
    and raises ValueError on markup it cannot parse; the story is the one
    of a text it accepts. *)
Definition create_pdf (text : str) : list flowable :=
  let story := [Paragraph (py "Vimeo Subtitle Transcript") Title; Spacer 1 12] in
  let paragraphs := split LF text in
  fold_left
    (fun story para =>
       if is_empty (strip para) then story
       else story ++ [Paragraph (strip para) Normal; Spacer 1 8])
    paragraphs story.

(** The paragraphs [create_docx] adds to the document.  python-docx
    raises ValueError on a text with control characters; the paragraphs
    are those of a text it accepts. *)
Definition create_docx (text : str) : list str := [text].

Definition body_paragraphs (story : list flowable) : nat :=
  List.length
    (filter (fun f => match f with
                      | Paragraph _ Normal => true
                      | _ => false
                      end) story).

(* ===================================================================== *)
(** ** [split_long_line] *)
(* ===================================================================== *)

(** [s[i:j]] for [0 <= i <= j]: the slice stops at the end of [s]. *)
Definition slice (s : str) (i j : nat) : str := firstn (j - i) (skipn i s).

(** The number of elements of [range(0, stop, step)] for a positive
    [step]: 0, step, 2 step, ... below [stop]. *)
Definition range_count (stop step : nat) : nat := ((stop + step - 1) / step)%nat.

(** [[line[i:i+max_chars] for i in range(0, len(line), max_chars)]]:
    [range] raises ValueError for a step of zero and is empty for a
    negative one. *)
Definition split_long_line (line : str) (max_chars : Z) : option (list str) :=
  match max_chars with
  | Z0 => None
  | Zneg _ => Some []
  | Zpos p =>
      let m := Pos.to_nat p in
      Some (map (fun k => slice line (k * m) (k * m + m))
                (seq 0 (range_count (length line) m)))
  end.

(* ===================================================================== *)
(** ** The button handler and its effects *)
(* ===================================================================== *)

Record response : Type := { status_code : N; content : str }.

(** What the script shows. *)
Inductive widget : Type :=
| StError (status : N)                      (* st.error(...) *)
| TextArea (label value : str)
| DownloadText (label data file_name : str)
| DownloadDocx (label : str) (data : list str) (file_name : str)
| DownloadPdf (label : str) (data : list flowable) (file_name : str).

(** The world the handler runs in: the server (what it answers to the
    n-th request of the run, for a URL), the requests sent so far, the
    content of subtitle.vtt if the file exists, and the page. *)
Record world : Type := {
  server : nat -> str -> response;
  requests : list str;
  subtitle_file : option str;
  page : list widget
}.

(** How a run of the script ends: normally, at [st.stop()], or with an
    exception. *)
Inductive outcome (A : Type) : Type :=
| Done (a : A)
| Stopped
| Raised.
Arguments Done {A} a.
Arguments Stopped {A}.
Arguments Raised {A}.

Definition script (A : Type) : Type := world -> outcome A * world.

Definition ret (A : Type) (a : A) : script A := fun w => (Done a, w).

Definition bind (A B : Type) (m : script A) (f : A -> script B) : script B :=
  fun w =>
    match m w with
    | (Done a, w') => f a w'
    | (Stopped, w') => (Stopped, w')
    | (Raised, w') => (Raised, w')
    end.

Notation "x <- m ;; f" := (bind m (fun x => f))
  (at level 61, m at next level, right associativity).
Notation "m ;;; f" := (bind m (fun _ => f))
  (at level 61, right associativity).

(** [requests.get(url, headers=HEADERS)] *)
Definition requests_get (url : str) : script response :=
  fun w =>
    (Done (server w (List.length (requests w)) url),
     {| server := server w;
        requests := requests w ++ [url];
        subtitle_file := subtitle_file w;
        page := page w |}).

(** [open(FILENAME, 'wb')] and [file.write(data)] *)
Definition write_subtitle_file (data : str) : script unit :=
  fun w =>
    (Done tt,
     {| server := server w;
        requests := requests w;
        subtitle_file := Some data;
        page := page w |}).

(** [open(FILENAME, 'r')]: the content, or FileNotFoundError.  The
    content is text: the decoding of the bytes of the file, which fails
    on bytes that are not UTF-8, is not part of the model. *)
Definition read_subtitle_file : script str :=
  fun w =>
    match subtitle_file w with
    | Some data => (Done data, w)
    | None => (Raised, w)
    end.

Definition show (x : widget) : script unit :=
  fun w =>
    (Done tt,
     {| server := server w;
        requests := requests w;
        subtitle_file := subtitle_file w;
        page := page w ++ [x] |}).

Definition st_stop (A : Type) : script A := fun w => (Stopped, w).

Definition BASE_URL : str := py "https://player.vimeo.com".

Definition download_subtitles_file (full_url : str) : script bool :=
  response <- requests_get full_url ;;
  if N.eqb (status_code response) 200 then
    write_subtitle_file (content response) ;;;
    ret true
  else
    show (StError (status_code response)) ;;;
    ret false.

(** [pressed] is what [st.button] returns. *)
Definition setup_sanitize_download (pressed : bool) (sub_path : str)
  : script unit :=
  if pressed then
    let sub_path :=
      if startswith (py "/") sub_path then sub_path else py "/" ++ sub_path in
    let full_url := BASE_URL ++ sub_path in
    download_subtitles_file full_url ;;;
    ok <- download_subtitles_file full_url ;;
    cleaned_text <- (if ok : bool
                     then (data <- read_subtitle_file ;; ret (sanitize_vtt data))
                     else st_stop str) ;;
    if is_empty cleaned_text then ret tt
    else
      let filtered_text := clean_hesitations cleaned_text in
      show (TextArea (py "Cleaned Subtitles") filtered_text) ;;;
      show (DownloadText (py "Download as TXT") filtered_text
              (py "subtitles.txt")) ;;;
      show (DownloadDocx (py "Download as DOCX") (create_docx filtered_text)
              (py "subtitles.docx")) ;;;
      show (DownloadPdf (py "Download as PDF") (create_pdf filtered_text)
              (py "subtitles.pdf"))
  else ret tt.

(* ===================================================================== *)
(** ** Vocabulary of the statements and of the proofs *)
(* ===================================================================== *)

(** The characters of [.,!?]: neither whitespace nor word characters. *)
Definition is_punct (c : char) : bool :=
  existsb (fun p => N.eqb p c) (py ".,!?").

Definition starts (p : char -> bool) (s : str) : bool :=
  match s with c :: _ => p c | [] => false end.

(** The character before the position, once [m] has been passed over. *)
Definition prev_after (prev : option char) (m : str) : option char :=
  fold_left (fun _ c => Some c) m prev.

(** The literal text of a replacement template. *)
Definition repl_text (repl : list repl_item) : str :=
  flat_map (fun it => match it with RLit t => t | RGroup _ => [] end) repl.

(** Some two neighbours of [s] are related by [R]. *)
Fixpoint adjacent (R : char -> char -> bool) (s : str) : bool :=
  match s with
  | a :: s' => (starts (R a) s' || adjacent R s')%bool
  | [] => false
  end.

Definition double_space (a b : char) : bool := (isspace a && isspace b)%bool.

Definition space_before_punct (a b : char) : bool :=
  (isspace a && is_punct b)%bool.

Definition collapse_from (prev : option char) (s : str) : str :=
  sub_scan NOFLAGS spaces_pattern [RLit (py " ")] 0 prev s.

Definition fix_from (prev : option char) (s : str) : str :=
  sub_scan NOFLAGS space_punct_pattern [RGroup 1] 0 prev s.

Definition word_prefix (s : str) : str := takewhile is_word s.

Definition word_rest (s : str) : str := dropwhile is_word s.

(** The maximal runs of word characters, in order: what [\b...\b] can
    match as a whole word. *)
Fixpoint words (s : str) : list str :=
  match s with
  | [] => []
  | c :: s' =>
      if is_word c then
        if starts is_word s' then
          match words s' with
          | w :: ws => (c :: w) :: ws
          | [] => [[c]]
          end
        else [c] :: words s'
      else words s'
  end.

Definition non_word (c : char) : bool := negb (is_word c).

(** [w] is the filler [f], letter case apart. *)
Fixpoint eq_ic (f w : str) : bool :=
  match f, w with
  | [], [] => true
  | p :: f', c :: w' => (char_eqb IGNORECASE p c && eq_ic f' w')%bool
  | _, _ => false
  end.

(** The text behind [f], if the text starts with it, letter case apart. *)
Fixpoint prefix_ic (f s : str) : option str :=
  match f with
  | [] => Some s
  | p :: f' =>
      match s with
      | c :: s' => if char_eqb IGNORECASE p c then prefix_ic f' s' else None
      | [] => None
      end
  end.

(** A filler: lower-case ASCII letters, at least one. *)
Definition good_filler (f : str) : bool :=
  (negb (is_empty f) && forallb (in_range 97 122) f)%bool.

Definition is_dot_comma (c : char) : bool :=
  existsb (fun p => char_eqb IGNORECASE p c) (py ".,").

(** Where a match of a filler pattern ends, from the end of the word on:
    behind the [.] or [,] when a word character follows it. *)
Definition filler_end (s : str) : str :=
  match s with
  | c :: s' => if (is_dot_comma c && starts is_word s')%bool then s' else s
  | [] => []
  end.


Definition filler_from (f : str) (prev : option char) (s : str) : str :=
  sub_scan IGNORECASE (filler_pattern f) [] 0 prev s.

(** A word that is one of the fillers, letter case apart. *)
Definition is_filler (fillers : list str) (w : str) : bool :=
  existsb (fun f => eq_ic f w) fillers.

Definition is_some (A : Type) (o : option A) : bool :=
  match o with Some _ => true | None => false end.

Definition has_char (c : char) (s : str) : bool := existsb (N.eqb c) s.

(** What [sanitize_vtt] throws away, said of the stripped line. *)
Definition discarded (line : str) : bool :=
  (is_empty line || str_eqb line (py "WEBVTT") || str_isdigit line
   || contains (py "-->") line)%bool.

(** The digit test in the words of the specification: at least one
    character, and all of them decimal digits, 0 to 9. *)
Definition all_decimal_digits (line : str) : bool :=
  (negb (is_empty line) && forallb ascii_digit line)%bool.

(** The discard test in the words of the specification, to be compared
    with [discarded], the test of the source. *)
Definition discarded_as_specified (line : str) : bool :=
  (is_empty line || str_eqb line (py "WEBVTT") || all_decimal_digits line
   || contains (py "-->") line)%bool.

(** The example payload of the specification, line by line. *)
Definition example_lines : list str :=
  [py "WEBVTT"; py "1"; py "00:00:01.000 --> 00:00:02.000";
   py "Uh, hello world."; py ""; py "2";
   py "00:00:03.000 --> 00:00:04.000"; py "um this is, hmm a test"].

(** The URL the handler fetches for a path. *)
Definition full_url_of (sub_path : str) : str :=
  BASE_URL ++ (if startswith (py "/") sub_path then sub_path
               else py "/" ++ sub_path).

(** A server that refuses the first request and answers the second. *)
Definition flaky_server (n : nat) (url : str) : response :=
  match n with
  | O => {| status_code := 404; content := [] |}
  | S _ => {| status_code := 200; content := join [LF] example_lines |}
  end.

Definition fresh_world : world :=
  {| server := flaky_server; requests := []; subtitle_file := None; page := [] |}.

(** Neither the first nor the last character of [s] is whitespace. *)
Definition trimmed (s : str) : bool :=
  (negb (starts isspace s) && negb (starts isspace (rev s)))%bool.

(** A segment of the transcript: not empty, no whitespace at its ends. *)
Definition segment_ok (seg : str) : bool :=
  (negb (is_empty seg) && trimmed seg)%bool.

Definition no_lines (xs : list str) : bool :=
  match xs with [] => true | _ => false end.

(** A line of a payload: it holds no line break of its own. *)
Definition plain_line (l : str) : bool :=
  (negb (has_char LF l) && negb (has_char CR l))%bool.

(** What the loop of [create_pdf] adds to the story for one piece. *)
Definition paragraph_of (para : str) : list flowable :=
  if is_empty (strip para) then []
  else [Paragraph (strip para) Normal; Spacer 1 8].

(** A flowable of the story that is no empty or untrimmed body
    paragraph, and no body paragraph with a line break. *)
Definition flowable_ok (f : flowable) : bool :=
  match f with
  | Paragraph p Normal => (segment_ok p && negb (has_char LF p))%bool
  | _ => true
  end.

(** The error [download_subtitles_file] shows for a response, if any. *)
Definition error_of (r : response) : list widget :=
  if N.eqb (status_code r) 200 then [] else [StError (status_code r)].

(** A server that refuses every request, and a world with an old file. *)
Definition down_server (n : nat) (url : str) : response :=
  {| status_code := 503; content := [] |}.

Definition stale_world : world :=
  {| server := down_server; requests := [];
     subtitle_file := Some (py "old text"); page := [] |}.

(* ===================================================================== *)
(** ** Characters: facts *)
(* ===================================================================== *)

Lemma in_range_spec lo hi c : in_range lo hi c = true <-> lo <= c <= hi.
Proof.
  unfold in_range. rewrite andb_true_iff, !N.leb_le. tauto.
Qed.

Lemma in_range_false lo hi c : in_range lo hi c = false <-> c < lo \/ hi < c.
Proof.
  unfold in_range. rewrite andb_false_iff, !N.leb_gt. tauto.
Qed.

(** A whitespace character is not a word character. *)
Lemma space_not_word c : isspace c = true -> is_word c = false.
Proof.
  unfold isspace, is_word, isalnum. destruct (N.ltb_spec c 128) as [Hlt | Hge].
  - unfold ascii_space, ascii_alnum, UNDERSCORE. intros H.
    apply orb_true_iff in H.
    repeat rewrite orb_false_iff. rewrite !in_range_false, N.eqb_neq.
    destruct H as [H | H]; apply in_range_spec in H; lia.
  - intros H. rewrite (uni_space_not_alnum _ H). simpl.
    apply N.eqb_neq. unfold UNDERSCORE. lia.
Qed.

Lemma word_not_space c : is_word c = true -> isspace c = false.
Proof.
  intros H. destruct (isspace c) eqn:E; [|reflexivity].
  apply space_not_word in E. congruence.
Qed.

Lemma is_punct_spec c :
  is_punct c = true <-> c = 46 \/ c = 44 \/ c = 33 \/ c = 63.
Proof.
  unfold is_punct. change (py ".,!?") with [46; 44; 33; 63].
  cbn [existsb]. rewrite !orb_true_iff, !N.eqb_eq. intuition congruence.
Qed.

Lemma punct_not_space c : is_punct c = true -> isspace c = false.
Proof.
  rewrite is_punct_spec. intros H.
  decompose [or] H; subst; reflexivity.
Qed.

Lemma punct_not_word c : is_punct c = true -> is_word c = false.
Proof.
  rewrite is_punct_spec. intros H.
  decompose [or] H; subst; reflexivity.
Qed.

(** A character that matches a lower-case ASCII letter under IGNORECASE
    is that letter or its capital: a word character. *)
Lemma letter_ic_word p c :
  in_range 97 122 p = true -> char_eqb true p c = true -> is_word c = true.
Proof.
  intros Hp H. apply in_range_spec in Hp. simpl in H. apply N.eqb_eq in H.
  unfold ascii_lower in H.
  destruct (in_range 65 90 p) eqn:E1; [apply in_range_spec in E1; lia|].
  destruct (in_range 65 90 c) eqn:E2; unfold is_word, isalnum, ascii_alnum.
  - rewrite E2. apply in_range_spec in E2.
    replace (N.ltb c 128) with true by (symmetry; apply N.ltb_lt; lia).
    rewrite orb_true_r. reflexivity.
  - subst p.
    replace (N.ltb c 128) with true by (symmetry; apply N.ltb_lt; lia).
    rewrite (proj2 (in_range_spec 97 122 c)) by lia.
    rewrite !orb_true_r. reflexivity.
Qed.

(* ===================================================================== *)
(** ** Prefixes and remainders *)
(* ===================================================================== *)

Lemma take_drop p s : takewhile p s ++ dropwhile p s = s.
Proof.
  induction s as [|c s IH]; simpl; [reflexivity|].
  destruct (p c); simpl; [rewrite IH|]; reflexivity.
Qed.

Lemma takewhile_all p s : forallb p (takewhile p s) = true.
Proof.
  induction s as [|c s IH]; simpl; [reflexivity|].
  destruct (p c) eqn:E; simpl; [rewrite E, IH|]; reflexivity.
Qed.

Lemma dropwhile_starts p s : starts p (dropwhile p s) = false.
Proof.
  induction s as [|c s IH]; simpl; [reflexivity|].
  destruct (p c) eqn:E; simpl; [exact IH | exact E].
Qed.

Lemma dropwhile_length p s : (length (dropwhile p s) <= length s)%nat.
Proof.
  induction s as [|c s IH]; simpl; [lia|].
  destruct (p c); simpl; lia.
Qed.

Lemma dropwhile_id p s : starts p s = false -> dropwhile p s = s.
Proof.
  destruct s as [|c s]; simpl; [reflexivity|]. intros ->. reflexivity.
Qed.

Lemma takewhile_nil p s : starts p s = false -> takewhile p s = [].
Proof.
  destruct s as [|c s]; simpl; [reflexivity|]. intros ->. reflexivity.
Qed.

Lemma dropwhile_app_all p l r :
  forallb p l = true -> dropwhile p (l ++ r) = dropwhile p r.
Proof.
  induction l as [|c l IH]; simpl; [reflexivity|].
  intros H. apply andb_true_iff in H. destruct H as [-> H]. auto.
Qed.

Lemma dropwhile_incl p s c : In c (dropwhile p s) -> In c s.
Proof.
  induction s as [|d s IH]; simpl; [tauto|].
  destruct (p d); simpl; tauto.
Qed.

Lemma prev_after_app prev a b :
  prev_after prev (a ++ b) = prev_after (prev_after prev a) b.
Proof. apply fold_left_app. Qed.

(* ===================================================================== *)
(** ** The matcher consumes a prefix; its groups are text of the input *)
(* ===================================================================== *)

Lemma rep_sound R ic a (k : cont R) res g :
  forall s lo hi prev,
    rep ic a lo hi prev s g k = Some res ->
    exists prev' m s', s = m ++ s' /\ k prev' s' g = Some res.
Proof.
  assert (Hstop : forall lo prev s,
             (if Nat.eqb lo 0 then k prev s g else None) = Some res ->
             exists prev' m s', s = m ++ s' /\ k prev' s' g = Some res).
  { intros lo prev s H. destruct (Nat.eqb lo 0); [|discriminate].
    exists prev, [], s. auto. }
  induction s as [|c s IH]; intros lo hi prev H; simpl in H.
  - destruct hi as [[|h]|]; eapply Hstop; eassumption.
  - assert (Hgo :
      (if atom_matches ic a c
       then match rep ic a (pred lo) (option_map pred hi) (Some c) s g k with
            | Some r => Some r
            | None => if Nat.eqb lo 0 then k prev (c :: s) g else None
            end
       else if Nat.eqb lo 0 then k prev (c :: s) g else None) = Some res ->
      exists prev' m s', c :: s = m ++ s' /\ k prev' s' g = Some res).
    { clear H. intros H. destruct (atom_matches ic a c); [|eapply Hstop; eassumption].
      destruct (rep ic a (pred lo) (option_map pred hi) (Some c) s g k) eqn:E;
        [|eapply Hstop; eassumption].
      inversion H; subst r. apply IH in E. destruct E as (p' & m & s' & -> & Hk).
      exists p', (c :: m), s'. auto. }
    destruct hi as [[|h]|]; [eapply Hstop; eassumption | auto | auto].
Qed.

Lemma firstn_in (n : nat) (l : str) x : In x (firstn n l) -> In x l.
Proof.
  intros H. rewrite <- (firstn_skipn n l). apply in_or_app. auto.
Qed.

Lemma matcher_sound R ic r :
  forall prev s g (k : cont R) res,
    matcher ic r prev s g k = Some res ->
    exists prev' m s' g',
      s = m ++ s' /\ k prev' s' g' = Some res /\
      incl (concat g') (concat g ++ s).
Proof.
  induction r as [| a | | | r1 IH1 r2 IH2 | lo hi a | r1 IH1];
    intros prev s g k res H; simpl in H.
  - exists prev, [], s, g. split; [reflexivity|]; split; auto using incl_appl, incl_refl.
  - destruct s as [|c s]; [discriminate|].
    destruct (atom_matches ic a c); [|discriminate].
    exists (Some c), [c], s, g. split; [reflexivity|]; split; auto using incl_appl, incl_refl.
  - destruct (at_boundary prev s); [|discriminate].
    exists prev, [], s, g. split; [reflexivity|]; split; auto using incl_appl, incl_refl.
  - destruct prev; [discriminate|].
    exists None, [], s, g. split; [reflexivity|]; split; auto using incl_appl, incl_refl.
  - apply IH1 in H. destruct H as (p1 & m1 & s1 & g1 & -> & H & Hg1).
    apply IH2 in H. destruct H as (p2 & m2 & s2 & g2 & -> & H & Hg2).
    exists p2, (m1 ++ m2), s2, g2.
    split; [apply app_assoc|]. split; [exact H|].
    intros x Hx. apply Hg2 in Hx. apply in_app_or in Hx. destruct Hx as [Hx | Hx].
    + apply Hg1 in Hx. exact Hx.
    + apply in_or_app. right. apply in_or_app. right. exact Hx.
  - apply rep_sound in H. destruct H as (p' & m & s' & -> & H).
    exists p', m, s', g. split; [reflexivity|]; split; auto using incl_appl, incl_refl.
  - apply IH1 in H. destruct H as (p1 & m1 & s1 & g1 & -> & H & Hg1).
    eexists _, _, _, _. split; [reflexivity|]. split; [exact H|].
    intros x Hx. rewrite concat_app in Hx. apply in_app_or in Hx.
    destruct Hx as [Hx | Hx]; [auto|].
    simpl in Hx. rewrite app_nil_r in Hx. apply firstn_in in Hx.
    apply in_or_app. right. exact Hx.
Qed.

Lemma match_at_sound ic r prev s rest g :
  match_at ic r prev s = Some (rest, g) ->
  (exists m, s = m ++ rest) /\ incl (concat g) s.
Proof.
  unfold match_at. intros H. apply matcher_sound in H.
  destruct H as (p & m & s' & g' & -> & H & Hg). inversion H; subst.
  split; [eauto|]. exact Hg.
Qed.

Lemma expand_chars repl g c :
  In c (expand repl g) -> In c (repl_text repl) \/ In c (concat g).
Proof.
  unfold expand, repl_text. induction repl as [|it repl IH]; simpl; [tauto|].
  intros H. apply in_app_or in H. destruct H as [H | H].
  - destruct it as [t | n]; [left; apply in_or_app; auto|].
    right. destruct (nth_in_or_default (pred n) g []) as [Hin | Hd].
    + apply in_concat. eauto.
    + rewrite Hd in H. destruct H.
  - apply IH in H. destruct H; [left; apply in_or_app|]; auto.
Qed.

(** [re.sub] writes nothing but characters of its input and of the
    literal text of the replacement. *)
Lemma sub_scan_chars ic r repl c :
  forall s skip prev,
    In c (sub_scan ic r repl skip prev s) -> In c s \/ In c (repl_text repl).
Proof.
  induction s as [|d s IH]; intros skip prev H.
  - destruct skip as [|n]; cbn [sub_scan] in H; [|destruct H].
    destruct (match_at ic r prev []) as [[rest g]|] eqn:E; [|destruct H].
    rewrite app_nil_r in H. apply expand_chars in H.
    destruct H as [H | H]; [auto|].
    apply match_at_sound in E. destruct E as [_ E]. apply E in H. destruct H.
  - destruct skip as [|n]; cbn [sub_scan] in H.
    + destruct (match_at ic r prev (d :: s)) as [[rest g]|] eqn:E.
      * apply in_app_or in H. destruct H as [H | H].
        -- apply expand_chars in H. destruct H as [H | H]; [auto|].
           apply match_at_sound in E. destruct E as [_ E]. left. auto.
        -- destruct (length (d :: s) - length rest)%nat.
           ++ destruct H as [H | H]; [left; left; auto|].
              apply IH in H. destruct H; [left; right|]; auto.
           ++ apply IH in H. destruct H; [left; right|]; auto.
      * destruct H as [H | H]; [left; left; auto|].
        apply IH in H. destruct H; [left; right|]; auto.
    + apply IH in H. destruct H; [left; right|]; auto.
Qed.

(* ===================================================================== *)
(** ** Unfolding [re.sub] *)
(* ===================================================================== *)

Lemma sub_scan_skip ic r repl :
  forall m prev rest,
    sub_scan ic r repl (length m) prev (m ++ rest)
    = sub_scan ic r repl 0 (prev_after prev m) rest.
Proof.
  induction m as [|c m IH]; intros prev rest; [reflexivity|].
  simpl. apply IH.
Qed.

Lemma sub_scan_match ic r repl prev c m rest g :
  match_at ic r prev (c :: m ++ rest) = Some (rest, g) ->
  sub_scan ic r repl 0 prev (c :: m ++ rest)
  = expand repl g ++ sub_scan ic r repl 0 (prev_after (Some c) m) rest.
Proof.
  intros H. cbn [sub_scan]. rewrite H. f_equal.
  replace (length (c :: m ++ rest) - length rest)%nat with (S (length m))
    by (cbn [length]; rewrite length_app; lia).
  apply sub_scan_skip.
Qed.

Lemma sub_scan_nomatch ic r repl prev c s :
  match_at ic r prev (c :: s) = None ->
  sub_scan ic r repl 0 prev (c :: s) = c :: sub_scan ic r repl 0 (Some c) s.
Proof.
  intros H. cbn [sub_scan]. rewrite H. reflexivity.
Qed.

Lemma sub_scan_nil ic r repl prev :
  match_at ic r prev [] = None -> sub_scan ic r repl 0 prev [] = [].
Proof.
  intros H. cbn [sub_scan]. rewrite H. reflexivity.
Qed.

(* ===================================================================== *)
(** ** Runs of whitespace *)
(* ===================================================================== *)

Lemma rep_space_short R ic (k : cont R) g :
  forall s lo prev,
    (length (takewhile isspace s) < lo)%nat ->
    rep ic Space lo None prev s g k = None.
Proof.
  induction s as [|c s IH]; intros lo prev H; simpl in *.
  - destruct lo; [lia | reflexivity].
  - destruct (isspace c); simpl in H.
    + rewrite IH by lia. destruct lo; [lia | reflexivity].
    + destruct lo; [lia | reflexivity].
Qed.

Lemma rep_space_longest R ic (k : cont R) g res :
  forall s lo prev,
    (lo <= length (takewhile isspace s))%nat ->
    k (prev_after prev (takewhile isspace s)) (lstrip s) g = Some res ->
    rep ic Space lo None prev s g k = Some res.
Proof.
  unfold lstrip.
  induction s as [|c s IH]; intros lo prev H Hk; simpl in *.
  - replace lo with 0%nat by lia. exact Hk.
  - destruct (isspace c); simpl in *.
    + rewrite (IH (pred lo) (Some c)); [reflexivity | lia | exact Hk].
    + replace lo with 0%nat by lia. exact Hk.
Qed.

Lemma rep_space_fail R ic (k : cont R) g :
  (forall p c s', isspace c = true -> k p (c :: s') g = None) ->
  forall s lo prev,
    k (prev_after prev (takewhile isspace s)) (lstrip s) g = None ->
    rep ic Space lo None prev s g k = None.
Proof.
  unfold lstrip. intros Hsp.
  induction s as [|c s IH]; intros lo prev Hk; simpl in *.
  - rewrite Hk. destruct (Nat.eqb lo 0); reflexivity.
  - destruct (isspace c) eqn:E; simpl in *.
    + rewrite (IH (pred lo) (Some c)) by exact Hk.
      rewrite Hsp by exact E. destruct (Nat.eqb lo 0); reflexivity.
    + rewrite Hk. destruct (Nat.eqb lo 0); reflexivity.
Qed.

(* ===================================================================== *)
(** ** The three clean-up patterns: where they match *)
(* ===================================================================== *)

Lemma starts_space_run s :
  starts isspace s = true <-> (1 <= length (takewhile isspace s))%nat.
Proof.
  destruct s as [|c s]; simpl; [split; [discriminate | lia]|].
  destruct (isspace c); simpl; split; intros; try lia; auto; discriminate.
Qed.

Lemma match_spaces ic prev s :
  match_at ic spaces_pattern prev s
  = if (2 <=? length (takewhile isspace s))%nat
    then Some (lstrip s, []) else None.
Proof.
  unfold match_at, spaces_pattern. cbn [matcher].
  destruct (Nat.leb_spec 2 (length (takewhile isspace s))) as [H | H].
  - apply rep_space_longest; [exact H | reflexivity].
  - apply rep_space_short. exact H.
Qed.

Lemma match_space_punct prev s :
  match_at NOFLAGS space_punct_pattern prev s
  = if starts isspace s then
      match lstrip s with
      | p :: rest => if is_punct p then Some (rest, [[p]]) else None
      | [] => None
      end
    else None.
Proof.
  unfold match_at, space_punct_pattern. cbn [matcher].
  destruct (starts isspace s) eqn:Hs.
  - apply starts_space_run in Hs.
    destruct (lstrip s) as [|p rest] eqn:Hl.
    + apply rep_space_fail; [|rewrite Hl; reflexivity].
      intros q c s' Hc. cbn [atom_matches].
      change (existsb (fun p0 => char_eqb NOFLAGS p0 c) (py ".,!?"))
        with (is_punct c).
      destruct (is_punct c) eqn:E; [|reflexivity].
      apply punct_not_space in E. congruence.
    + destruct (is_punct p) eqn:Hp.
      * apply rep_space_longest; [exact Hs|]. rewrite Hl. cbn [atom_matches].
        change (existsb (fun p0 => char_eqb NOFLAGS p0 p) (py ".,!?"))
          with (is_punct p).
        rewrite Hp. cbn [app length].
        replace (S (length rest) - length rest)%nat with 1%nat by lia.
        reflexivity.
      * apply rep_space_fail.
        -- intros q c s' Hc. cbn [atom_matches].
           change (existsb (fun p0 => char_eqb NOFLAGS p0 c) (py ".,!?"))
             with (is_punct c).
           destruct (is_punct c) eqn:E; [|reflexivity].
           apply punct_not_space in E. congruence.
        -- rewrite Hl. cbn [atom_matches].
           change (existsb (fun p0 => char_eqb NOFLAGS p0 p) (py ".,!?"))
             with (is_punct p).
           rewrite Hp. reflexivity.
  - apply rep_space_short.
    destruct (takewhile isspace s) eqn:E; simpl; [lia|].
    assert (H : (1 <= length (takewhile isspace s))%nat) by (rewrite E; simpl; lia).
    apply starts_space_run in H. congruence.
Qed.

Lemma match_leading_comma prev s :
  match_at NOFLAGS leading_comma_pattern prev s
  = match prev, s with
    | None, c :: s' => if N.eqb COMMA c then Some (lstrip s', []) else None
    | _, _ => None
    end.
Proof.
  unfold match_at, leading_comma_pattern. cbn [matcher].
  destruct prev as [p|]; [reflexivity|].
  destruct s as [|c s]; [reflexivity|].
  cbn [atom_matches char_eqb NOFLAGS]. destruct (N.eqb COMMA c); [|reflexivity].
  apply rep_space_longest; [lia | reflexivity].
Qed.

(* ===================================================================== *)
(** ** Adjacent characters *)
(* ===================================================================== *)

Lemma adjacent_app_r R l r : adjacent R (l ++ r) = false -> adjacent R r = false.
Proof.
  induction l as [|a l IH]; simpl; [auto|].
  intros H. apply orb_false_iff in H. destruct H as [_ H]. auto.
Qed.

Lemma adjacent_app_l R l r : adjacent R (l ++ r) = false -> adjacent R l = false.
Proof.
  induction l as [|a l IH]; simpl; [auto|].
  intros H. apply orb_false_iff in H. destruct H as [H1 H2].
  rewrite (IH H2), orb_false_r.
  destruct l as [|b l]; [reflexivity | exact H1].
Qed.

Lemma adjacent_piece R l m r :
  adjacent R (l ++ m ++ r) = false -> adjacent R m = false.
Proof.
  intros H. apply adjacent_app_r in H. apply adjacent_app_l in H. exact H.
Qed.

(** Induction on the length of the text. *)
Lemma str_length_ind (P : str -> Prop) :
  (forall s, (forall t, (length t < length s)%nat -> P t) -> P s) ->
  forall s, P s.
Proof.
  intros H s. remember (length s) as n eqn:E. revert s E.
  induction n as [n IH] using lt_wf_ind. intros s ->.
  apply H. intros t Ht. eapply IH; [exact Ht | reflexivity].
Qed.

(* ===================================================================== *)
(** ** Step 2: runs of whitespace *)
(* ===================================================================== *)

Lemma lstrip_split s : s = takewhile isspace s ++ lstrip s.
Proof. symmetry. apply take_drop. Qed.

Lemma collapse_unfold prev s :
  collapse_from prev s
  = if (2 <=? length (takewhile isspace s))%nat
    then SP :: collapse_from (prev_after prev (takewhile isspace s)) (lstrip s)
    else match s with
         | [] => []
         | c :: s' => c :: collapse_from (Some c) s'
         end.
Proof.
  unfold collapse_from.
  pose proof (match_spaces NOFLAGS prev s) as Hm.
  destruct (Nat.leb_spec 2 (length (takewhile isspace s))) as [H | H].
  - pose proof (lstrip_split s) as Hs.
    destruct (takewhile isspace s) as [|c m] eqn:Et; [simpl in H; lia|].
    rewrite Hs at 1. rewrite Hs in Hm at 1. cbn [app] in *.
    rewrite (sub_scan_match _ _ _ _ _ _ Hm). reflexivity.
  - destruct s as [|c s'].
    + apply sub_scan_nil. exact Hm.
    + apply sub_scan_nomatch. exact Hm.
Qed.

Lemma collapse_starts_space prev s :
  starts isspace (collapse_from prev s) = starts isspace s.
Proof.
  rewrite collapse_unfold.
  destruct (Nat.leb_spec 2 (length (takewhile isspace s))) as [H | H].
  - symmetry. apply starts_space_run. lia.
  - destruct s; reflexivity.
Qed.

Lemma collapse_no_double_space :
  forall s prev, adjacent double_space (collapse_from prev s) = false.
Proof.
  induction s as [s IH] using str_length_ind. intros prev.
  rewrite collapse_unfold.
  destruct (Nat.leb_spec 2 (length (takewhile isspace s))) as [H | H].
  - cbn [adjacent]. rewrite IH.
    + rewrite orb_false_r.
      assert (Hh : starts isspace
                     (collapse_from (prev_after prev (takewhile isspace s))
                        (lstrip s)) = false).
      { rewrite collapse_starts_space. apply dropwhile_starts. }
      destruct (collapse_from _ (lstrip s)) as [|b t]; [reflexivity|].
      simpl in *. unfold double_space. rewrite Hh. apply andb_false_r.
    + rewrite (lstrip_split s) at 2. rewrite length_app. lia.
  - destruct s as [|c s']; [reflexivity|].
    cbn [adjacent]. rewrite IH by (simpl; lia). rewrite orb_false_r.
    pose proof (collapse_starts_space (Some c) s') as Hh.
    destruct (collapse_from (Some c) s') as [|b t]; [reflexivity|].
    cbn [starts] in *. unfold double_space. rewrite Hh.
    simpl in H. destruct (isspace c) eqn:Ec; [|reflexivity].
    destruct s' as [|d s'']; [reflexivity|]. simpl in *.
    destruct (isspace d); [simpl in H; lia | reflexivity].
Qed.

(* ===================================================================== *)
(** ** Step 3: whitespace before punctuation *)
(* ===================================================================== *)

Lemma prev_after_last prev m c : prev_after prev (m ++ [c]) = Some c.
Proof. unfold prev_after. rewrite fold_left_app. reflexivity. Qed.

Lemma prev_after_some c m : exists p, prev_after (Some c) m = Some p.
Proof.
  destruct m as [|d m] using rev_ind; [exists c; reflexivity|].
  exists d. apply prev_after_last.
Qed.

Lemma fix_unfold prev s :
  fix_from prev s
  = if (starts isspace s && starts is_punct (lstrip s))%bool then
      match lstrip s with
      | p :: rest => p :: fix_from (Some p) rest
      | [] => []
      end
    else match s with
         | [] => []
         | c :: s' => c :: fix_from (Some c) s'
         end.
Proof.
  unfold fix_from.
  pose proof (match_space_punct prev s) as Hm.
  destruct (starts isspace s) eqn:Hs; cbn [andb].
  - pose proof (lstrip_split s) as Hsplit.
    destruct (lstrip s) as [|p rest] eqn:Hl; cbn [starts].
    + destruct s as [|c s']; [discriminate|]. apply sub_scan_nomatch. exact Hm.
    + destruct (is_punct p) eqn:Hp.
      * apply starts_space_run in Hs.
        destruct (takewhile isspace s) as [|c m] eqn:Et; [simpl in Hs; lia|].
        assert (E : s = c :: (m ++ [p]) ++ rest).
        { rewrite Hsplit at 1. cbn [app]. rewrite <- app_assoc. reflexivity. }
        rewrite E at 1. rewrite E in Hm at 1.
        rewrite (sub_scan_match _ _ _ _ _ _ Hm).
        rewrite prev_after_last. reflexivity.
      * destruct s as [|c s']; [discriminate|]. apply sub_scan_nomatch. exact Hm.
  - destruct s as [|c s'].
    + apply sub_scan_nil. exact Hm.
    + apply sub_scan_nomatch. exact Hm.
Qed.

Lemma lstrip_cons_space c s : isspace c = true -> lstrip (c :: s) = lstrip s.
Proof. unfold lstrip. simpl. intros ->. reflexivity. Qed.

Lemma lstrip_cons_other c s : isspace c = false -> lstrip (c :: s) = c :: s.
Proof. unfold lstrip. simpl. intros ->. reflexivity. Qed.

Lemma lstrip_length s : (length (lstrip s) <= length s)%nat.
Proof. apply dropwhile_length. Qed.

Lemma fix_starts_punct prev s :
  starts is_punct (fix_from prev s) = starts is_punct (lstrip s).
Proof.
  rewrite fix_unfold.
  destruct (starts isspace s) eqn:Hs; cbn [andb].
  - destruct (starts is_punct (lstrip s)) eqn:Hp.
    + destruct (lstrip s) as [|p rest]; [discriminate|]. exact Hp.
    + destruct s as [|c s']; [discriminate|]. cbn [starts] in *.
      destruct (is_punct c) eqn:E; [|reflexivity].
      apply punct_not_space in E. congruence.
  - destruct s as [|c s']; [reflexivity|]. cbn [starts] in *.
    rewrite lstrip_cons_other by exact Hs. reflexivity.
Qed.

Lemma fix_starts_space prev s :
  starts isspace (fix_from prev s) = true -> starts isspace s = true.
Proof.
  rewrite fix_unfold.
  destruct (starts isspace s) eqn:Hs; cbn [andb]; [reflexivity|].
  destruct s as [|c s']; [discriminate|]. cbn [starts] in *. congruence.
Qed.

Lemma starts_double_space a t :
  starts (double_space a) t = (isspace a && starts isspace t)%bool.
Proof. destruct t; simpl; [rewrite andb_false_r|]; reflexivity. Qed.

Lemma starts_space_before_punct a t :
  starts (space_before_punct a) t = (isspace a && starts is_punct t)%bool.
Proof. destruct t; simpl; [rewrite andb_false_r|]; reflexivity. Qed.

Lemma fix_keeps_no_double_space :
  forall s prev,
    adjacent double_space s = false ->
    adjacent double_space (fix_from prev s) = false.
Proof.
  induction s as [s IH] using str_length_ind. intros prev Hin.
  rewrite fix_unfold.
  destruct (starts isspace s && starts is_punct (lstrip s))%bool eqn:Hc.
  - apply andb_true_iff in Hc. destruct Hc as [Hs Hp].
    pose proof (lstrip_split s) as Hsplit.
    destruct (lstrip s) as [|p rest] eqn:Hl; [reflexivity|]. cbn [starts] in Hp.
    cbn [adjacent]. rewrite starts_double_space.
    rewrite (punct_not_space _ Hp). cbn [andb orb].
    apply IH.
    + rewrite Hsplit, length_app. simpl. lia.
    + rewrite Hsplit in Hin. apply adjacent_app_r in Hin.
      change (p :: rest) with ([p] ++ rest) in Hin.
      apply adjacent_app_r in Hin. exact Hin.
  - destruct s as [|c s']; [reflexivity|].
    cbn [adjacent] in *. apply orb_false_iff in Hin. destruct Hin as [H1 H2].
    rewrite IH by (simpl; auto). rewrite orb_false_r.
    rewrite starts_double_space in *.
    destruct (isspace c); [|reflexivity]. cbn [andb] in *.
    destruct (starts isspace (fix_from (Some c) s')) eqn:E; [|reflexivity].
    apply fix_starts_space in E. congruence.
Qed.

Lemma fix_no_space_before_punct :
  forall s prev, adjacent space_before_punct (fix_from prev s) = false.
Proof.
  induction s as [s IH] using str_length_ind. intros prev.
  rewrite fix_unfold.
  destruct (starts isspace s && starts is_punct (lstrip s))%bool eqn:Hc.
  - apply andb_true_iff in Hc. destruct Hc as [Hs Hp].
    pose proof (lstrip_split s) as Hsplit.
    destruct (lstrip s) as [|p rest] eqn:Hl; [reflexivity|]. cbn [starts] in Hp.
    cbn [adjacent]. rewrite starts_space_before_punct.
    rewrite (punct_not_space _ Hp). cbn [andb orb].
    apply IH. rewrite Hsplit, length_app. simpl. lia.
  - destruct s as [|c s']; [reflexivity|].
    cbn [adjacent]. rewrite IH by (simpl; auto). rewrite orb_false_r.
    rewrite starts_space_before_punct, fix_starts_punct.
    cbn [starts] in Hc. destruct (isspace c) eqn:Ec; [|reflexivity].
    cbn [andb] in *. rewrite lstrip_cons_space in Hc by exact Ec. exact Hc.
Qed.

(* ===================================================================== *)
(** ** Steps 4 and 5: the leading comma, and [strip] *)
(* ===================================================================== *)

Lemma leading_comma_later :
  forall s p, sub_scan NOFLAGS leading_comma_pattern [] 0 (Some p) s = s.
Proof.
  induction s as [|c s IH]; intros p.
  - apply sub_scan_nil. apply match_leading_comma.
  - rewrite sub_scan_nomatch by apply match_leading_comma.
    rewrite IH. reflexivity.
Qed.

(** The pattern is anchored: only the first character can match. *)
Lemma drop_leading_comma_eq s :
  drop_leading_comma s
  = match s with
    | c :: s' => if N.eqb COMMA c then lstrip s' else s
    | [] => []
    end.
Proof.
  unfold drop_leading_comma, re_sub.
  pose proof (match_leading_comma None s) as Hm.
  destruct s as [|c s']; [apply sub_scan_nil; exact Hm|].
  cbv beta iota in Hm. destruct (N.eqb COMMA c).
  - rewrite (lstrip_split s') in Hm at 1. rewrite (lstrip_split s') at 1.
    rewrite (sub_scan_match _ _ _ _ _ _ Hm).
    destruct (prev_after_some c (takewhile isspace s')) as [p ->].
    apply leading_comma_later.
  - rewrite sub_scan_nomatch by exact Hm. rewrite leading_comma_later.
    reflexivity.
Qed.

Lemma drop_leading_comma_suffix s : exists l, s = l ++ drop_leading_comma s.
Proof.
  rewrite drop_leading_comma_eq. destruct s as [|c s']; [exists []; reflexivity|].
  destruct (N.eqb COMMA c); [|exists []; reflexivity].
  exists (c :: takewhile isspace s'). simpl. f_equal. apply lstrip_split.
Qed.

Lemma rstrip_prefix s : exists r, s = rstrip s ++ r.
Proof.
  unfold rstrip. exists (rev (takewhile isspace (rev s))).
  rewrite <- rev_app_distr, <- lstrip_split, rev_involutive. reflexivity.
Qed.

Lemma strip_piece s : exists l r, s = l ++ strip s ++ r.
Proof.
  unfold strip. destruct (rstrip_prefix (lstrip s)) as [r Hr].
  exists (takewhile isspace s), r. rewrite <- Hr. apply lstrip_split.
Qed.

(* ===================================================================== *)
(** ** The words of a text *)
(* ===================================================================== *)

Lemma words_word_start s :
  starts is_word s = true -> words s = word_prefix s :: words (word_rest s).
Proof.
  unfold word_prefix, word_rest.
  induction s as [|c s IH]; [discriminate|]. cbn [starts]. intros Hc.
  cbn [words takewhile dropwhile]. rewrite Hc.
  destruct (starts is_word s) eqn:Hs.
  - rewrite (IH eq_refl). reflexivity.
  - rewrite (takewhile_nil _ _ Hs), (dropwhile_id _ _ Hs). reflexivity.
Qed.

Lemma words_other_start c s : is_word c = false -> words (c :: s) = words s.
Proof. simpl. intros ->. reflexivity. Qed.

Lemma words_skip l r : forallb non_word l = true -> words (l ++ r) = words r.
Proof.
  induction l as [|c l IH]; [reflexivity|]. cbn [forallb app]. intros H.
  apply andb_true_iff in H. destruct H as [Hc H].
  rewrite words_other_start by (apply negb_true_iff; exact Hc). auto.
Qed.

Lemma words_no_word r : forallb non_word r = true -> words r = [].
Proof.
  intros H. rewrite <- (app_nil_r r). apply (words_skip _ [] H).
Qed.

Lemma words_congr c x y :
  starts is_word x = starts is_word y -> words x = words y ->
  words (c :: x) = words (c :: y).
Proof. simpl. intros -> ->. reflexivity. Qed.

Lemma starts_app_tail (p : char -> bool) l r :
  starts p r = false -> starts p (l ++ r) = starts p l.
Proof. destruct l; simpl; auto. Qed.

Lemma words_tail l r : forallb non_word r = true -> words (l ++ r) = words l.
Proof.
  intros Hr. induction l as [|c l IH]; [apply words_no_word; exact Hr|].
  cbn [app]. apply words_congr; [|exact IH].
  apply starts_app_tail. destruct r as [|d r]; [reflexivity|].
  simpl in *. apply andb_true_iff in Hr. destruct Hr as [Hd _].
  apply negb_true_iff. exact Hd.
Qed.

Lemma spaces_non_word l : forallb isspace l = true -> forallb non_word l = true.
Proof.
  induction l as [|c l IH]; [reflexivity|]. cbn [forallb]. intros H.
  apply andb_true_iff in H. destruct H as [Hc H].
  unfold non_word at 1. rewrite (space_not_word _ Hc). auto.
Qed.

Lemma words_lstrip s : words (lstrip s) = words s.
Proof.
  rewrite (lstrip_split s) at 2. symmetry. apply words_skip.
  apply spaces_non_word, takewhile_all.
Qed.

Lemma words_rstrip s : words (rstrip s) = words s.
Proof.
  assert (H : s = rstrip s ++ rev (takewhile isspace (rev s))).
  { unfold rstrip. rewrite <- rev_app_distr, <- lstrip_split, rev_involutive.
    reflexivity. }
  rewrite H at 2. symmetry. apply words_tail. apply spaces_non_word.
  rewrite forallb_forall. intros c Hc. apply in_rev in Hc.
  pose proof (takewhile_all isspace (rev s)) as Ha.
  rewrite forallb_forall in Ha. auto.
Qed.

Lemma words_strip s : words (strip s) = words s.
Proof. unfold strip. rewrite words_rstrip. apply words_lstrip. Qed.

(** Steps 2 to 4 keep the words of the text. *)
Lemma collapse_starts_word prev s :
  starts is_word (collapse_from prev s) = starts is_word s.
Proof.
  rewrite collapse_unfold.
  destruct (Nat.leb_spec 2 (length (takewhile isspace s))) as [H | H].
  - assert (Hs : starts isspace s = true) by (apply starts_space_run; lia).
    destruct s as [|c s']; [discriminate|]. cbn [starts] in *.
    rewrite (space_not_word _ Hs). reflexivity.
  - destruct s; reflexivity.
Qed.

Lemma collapse_words :
  forall s prev, words (collapse_from prev s) = words s.
Proof.
  induction s as [s IH] using str_length_ind. intros prev.
  rewrite collapse_unfold.
  destruct (Nat.leb_spec 2 (length (takewhile isspace s))) as [H | H].
  - rewrite words_other_start by reflexivity.
    rewrite IH by (rewrite (lstrip_split s) at 2; rewrite length_app; lia).
    apply words_lstrip.
  - destruct s as [|c s']; [reflexivity|].
    apply words_congr; [apply collapse_starts_word | apply IH; simpl; lia].
Qed.

Lemma fix_starts_word prev s :
  starts is_word (fix_from prev s) = starts is_word s.
Proof.
  rewrite fix_unfold.
  destruct (starts isspace s && starts is_punct (lstrip s))%bool eqn:Hc.
  - apply andb_true_iff in Hc. destruct Hc as [Hs Hp].
    destruct s as [|c s']; [discriminate|]. cbn [starts] in Hs |- *.
    rewrite (space_not_word _ Hs).
    destruct (lstrip (c :: s')) as [|p rest]; [reflexivity|].
    cbn [starts] in *. apply punct_not_word. exact Hp.
  - destruct s; reflexivity.
Qed.

Lemma fix_words :
  forall s prev, words (fix_from prev s) = words s.
Proof.
  induction s as [s IH] using str_length_ind. intros prev.
  rewrite fix_unfold.
  destruct (starts isspace s && starts is_punct (lstrip s))%bool eqn:Hc.
  - apply andb_true_iff in Hc. destruct Hc as [Hs Hp].
    rewrite <- (words_lstrip s).
    pose proof (lstrip_split s) as Hsplit.
    destruct (lstrip s) as [|p rest] eqn:Hl; [reflexivity|]. cbn [starts] in Hp.
    rewrite !words_other_start by (apply punct_not_word; exact Hp).
    apply IH. rewrite Hsplit, length_app. simpl. lia.
  - destruct s as [|c s']; [reflexivity|].
    apply words_congr; [apply fix_starts_word | apply IH; simpl; lia].
Qed.

Lemma drop_leading_comma_words s : words (drop_leading_comma s) = words s.
Proof.
  rewrite drop_leading_comma_eq. destruct s as [|c s']; [reflexivity|].
  destruct (N.eqb_spec COMMA c) as [<- | _]; [|reflexivity].
  rewrite words_lstrip. symmetry. apply words_other_start. reflexivity.
Qed.

(* ===================================================================== *)
(** ** Step 1: where a filler pattern matches *)
(* ===================================================================== *)

Lemma is_dot_comma_spec c : is_dot_comma c = true -> c = DOT \/ c = COMMA.
Proof.
  unfold is_dot_comma. change (py ".,") with [46; 44]. cbn [existsb].
  rewrite orb_false_r, orb_true_iff. unfold char_eqb, IGNORECASE, ascii_lower.
  change (in_range 65 90 46) with false. change (in_range 65 90 44) with false.
  cbv iota. unfold DOT, COMMA.
  destruct (in_range 65 90 c) eqn:E.
  - apply in_range_spec in E. rewrite !N.eqb_eq. lia.
  - rewrite !N.eqb_eq. intuition congruence.
Qed.

Lemma dot_comma_not_word c : is_dot_comma c = true -> is_word c = false.
Proof.
  intros H. apply is_dot_comma_spec in H. destruct H; subst; reflexivity.
Qed.

Lemma word_opt_hd s : word_opt (hd_error s) = starts is_word s.
Proof. destruct s; reflexivity. Qed.

Lemma at_boundary_eq prev s :
  at_boundary prev s = xorb (word_opt prev) (starts is_word s).
Proof. unfold at_boundary. rewrite word_opt_hd. reflexivity. Qed.

Lemma matcher_escape R (k : cont R) g f :
  forall s prev,
    matcher IGNORECASE (re_escape f) prev s g k
    = match prefix_ic f s with
      | Some rest => k (prev_after prev (firstn (length f) s)) rest g
      | None => None
      end.
Proof.
  induction f as [|p f IH]; intros s prev; [reflexivity|].
  cbn [re_escape fold_right matcher atom_matches prefix_ic].
  destruct s as [|c s]; [reflexivity|].
  destruct (char_eqb IGNORECASE p c); [|reflexivity].
  apply IH.
Qed.

Lemma eq_ic_length f : forall m, eq_ic f m = true -> length m = length f.
Proof.
  induction f as [|p f IH]; intros [|c m] H; cbn [eq_ic] in H; try discriminate.
  - reflexivity.
  - apply andb_true_iff in H. destruct H as [_ H]. simpl. f_equal. auto.
Qed.

Lemma eq_ic_word f :
  forallb (in_range 97 122) f = true ->
  forall m, eq_ic f m = true -> forallb is_word m = true.
Proof.
  induction f as [|p f IH]; intros Hf [|c m] H; cbn [eq_ic] in H; try discriminate.
  - reflexivity.
  - cbn [forallb] in *. apply andb_true_iff in Hf. destruct Hf as [Hp Hf].
    apply andb_true_iff in H. destruct H as [Hc H].
    rewrite (letter_ic_word _ _ Hp Hc). cbn [andb]. auto.
Qed.

Lemma prefix_ic_split f :
  forall s r,
    prefix_ic f s = Some r ->
    exists m, s = m ++ r /\ eq_ic f m = true /\ firstn (length f) s = m.
Proof.
  induction f as [|p f IH]; intros s r H; cbn [prefix_ic] in H.
  - inversion H; subst. exists []. auto.
  - destruct s as [|c s]; [discriminate|].
    destruct (char_eqb IGNORECASE p c) eqn:E; [|discriminate].
    apply IH in H. destruct H as (m & -> & Hm & Hf).
    exists (c :: m). cbn [eq_ic app length firstn]. rewrite E, Hm, Hf. auto.
Qed.

Lemma prefix_ic_app f :
  forall m r, eq_ic f m = true -> prefix_ic f (m ++ r) = Some r.
Proof.
  induction f as [|p f IH]; intros [|c m] r H; cbn [eq_ic] in H; try discriminate.
  - reflexivity.
  - apply andb_true_iff in H. destruct H as [Hc H]. cbn [app prefix_ic]. rewrite Hc. auto.
Qed.

Lemma word_prefix_app m r :
  forallb is_word m = true -> starts is_word r = false ->
  word_prefix (m ++ r) = m /\ word_rest (m ++ r) = r.
Proof.
  unfold word_prefix, word_rest. intros Hm Hr.
  induction m as [|c m IH]; cbn [app].
  - rewrite takewhile_nil, dropwhile_id by exact Hr. auto.
  - cbn [forallb] in Hm. apply andb_true_iff in Hm. destruct Hm as [Hc Hm].
    cbn [takewhile dropwhile]. rewrite Hc.
    destruct (IH Hm) as [-> ->]. auto.
Qed.

Lemma word_split s : s = word_prefix s ++ word_rest s.
Proof. symmetry. apply take_drop. Qed.

Lemma prev_after_word prev m :
  word_opt prev = true -> forallb is_word m = true ->
  word_opt (prev_after prev m) = true.
Proof.
  revert prev. induction m as [|c m IH]; intros prev Hp Hm; [exact Hp|].
  cbn [forallb] in Hm. apply andb_true_iff in Hm. destruct Hm as [Hc Hm].
  apply IH; [exact Hc | exact Hm].
Qed.

Lemma prev_after_word_cons prev c m :
  forallb is_word (c :: m) = true -> word_opt (prev_after prev (c :: m)) = true.
Proof.
  cbn [forallb]. intros H. apply andb_true_iff in H. destruct H as [Hc Hm].
  apply (prev_after_word (Some c) m); assumption.
Qed.

Section Bounded.

(** A pattern [\b filler tail], whose [tail] ends a match exactly at the
    end of a word, [ending] saying where. *)
Variable tail : regex.
Variable ending : str -> str.
Hypothesis tail_spec :
  forall prev s,
    word_opt prev = true ->
    matcher IGNORECASE tail prev s [] (fun _ s' g => Some (s', g))
    = if starts is_word s then None else Some (ending s, []).

Variable f : str.
Hypothesis f_good : good_filler f = true.

Lemma f_letters : forallb (in_range 97 122) f = true.
Proof.
  unfold good_filler in f_good. apply andb_true_iff in f_good. tauto.
Qed.

Lemma f_not_nil : f <> [].
Proof.
  unfold good_filler in f_good. intros E. rewrite E in f_good. discriminate.
Qed.

Lemma eq_ic_f_nil : eq_ic f [] = false.
Proof. pose proof f_not_nil. destruct f; [congruence | reflexivity]. Qed.

Lemma prefix_ic_other s : starts is_word s = false -> prefix_ic f s = None.
Proof.
  pose proof f_not_nil as Hn. pose proof f_letters as Hl.
  destruct f as [|p f']; [congruence|]. intros Hs. cbn [prefix_ic].
  destruct s as [|c s]; [reflexivity|]. cbn [starts forallb] in *.
  apply andb_true_iff in Hl. destruct Hl as [Hp _].
  destruct (char_eqb IGNORECASE p c) eqn:E; [|reflexivity].
  apply (letter_ic_word _ _ Hp) in E. congruence.
Qed.

Lemma match_bounded prev s :
  match_at IGNORECASE (Cat Boundary (Cat (re_escape f) tail)) prev s
  = if word_opt prev then None
    else if eq_ic f (word_prefix s)
         then Some (ending (word_rest s), []) else None.
Proof.
  unfold match_at. cbn [matcher]. rewrite at_boundary_eq.
  destruct (word_opt prev) eqn:Hp; cbn [xorb].
  - destruct (starts is_word s) eqn:Hs; [reflexivity|]. cbn [negb].
    rewrite matcher_escape, prefix_ic_other by exact Hs. reflexivity.
  - destruct (starts is_word s) eqn:Hs.
    + rewrite matcher_escape.
      destruct (eq_ic f (word_prefix s)) eqn:He.
      * pose proof (word_split s) as Hsplit.
        rewrite Hsplit at 1. rewrite (prefix_ic_app _ _ _ He).
        rewrite tail_spec.
        -- unfold word_rest. rewrite dropwhile_starts. reflexivity.
        -- assert (Hf : firstn (length f) s = word_prefix s).
           { rewrite Hsplit at 1. rewrite <- (eq_ic_length _ _ He).
             rewrite firstn_app, firstn_all, Nat.sub_diag. simpl.
             apply app_nil_r. }
           rewrite Hf. pose proof (eq_ic_word _ f_letters _ He) as Hw.
           destruct (word_prefix s) as [|c m];
             [rewrite eq_ic_f_nil in He; discriminate|].
           apply prev_after_word_cons. exact Hw.
      * destruct (prefix_ic f s) as [r|] eqn:Hr; [|reflexivity].
        apply prefix_ic_split in Hr. destruct Hr as (m & Hs' & Hm & Hf).
        pose proof (eq_ic_word _ f_letters _ Hm) as Hw.
        rewrite tail_spec.
        -- destruct (starts is_word r) eqn:Hsr; [reflexivity|].
           destruct (word_prefix_app _ _ Hw Hsr) as [E _].
           rewrite <- Hs' in E. congruence.
        -- rewrite Hf. destruct m as [|c m];
             [rewrite eq_ic_f_nil in Hm; discriminate|].
           apply prev_after_word_cons. exact Hw.
    + unfold word_prefix. rewrite (takewhile_nil _ _ Hs), eq_ic_f_nil.
      reflexivity.
Qed.

End Bounded.

Lemma rep_exhausted R ic a lo prev s g (k : cont R) :
  rep ic a lo (Some 0%nat) prev s g k
  = if Nat.eqb lo 0 then k prev s g else None.
Proof. destruct s; reflexivity. Qed.

Lemma filler_tail_spec prev s :
  word_opt prev = true ->
  matcher IGNORECASE (Cat (Rep 0 (Some 1%nat) (CharSet (py ".,"))) Boundary)
    prev s [] (fun _ s' g => Some (s', g))
  = if starts is_word s then None else Some (filler_end s, []).
Proof.
  intros Hp. cbn [matcher]. destruct s as [|c s'].
  - cbn [rep Nat.eqb matcher]. rewrite at_boundary_eq, Hp. reflexivity.
  - cbn [rep Nat.eqb pred option_map atom_matches matcher starts filler_end].
    change (existsb (fun p => char_eqb IGNORECASE p c) (py ".,"))
      with (is_dot_comma c).
    rewrite rep_exhausted. cbn [Nat.eqb].
    rewrite !at_boundary_eq, Hp. cbn [starts].
    destruct (is_dot_comma c) eqn:Ed.
    + cbn [word_opt]. rewrite (dot_comma_not_word _ Ed). cbn [xorb andb].
      destruct (starts is_word s'); reflexivity.
    + cbn [andb]. destruct (is_word c); reflexivity.
Qed.


Lemma match_filler f prev s :
  good_filler f = true ->
  match_at IGNORECASE (filler_pattern f) prev s
  = if word_opt prev then None
    else if eq_ic f (word_prefix s)
         then Some (filler_end (word_rest s), []) else None.
Proof.
  intros Hf. unfold filler_pattern.
  apply match_bounded with (ending := filler_end);
    [exact filler_tail_spec | exact Hf].
Qed.


(* ===================================================================== *)
(** ** Step 1: one pass removes the words equal to its filler *)
(* ===================================================================== *)

(** Inside a word nothing matches: the scan copies to the end of the word
    and one character more. *)
Lemma filler_inword f :
  good_filler f = true ->
  forall s prev,
    word_opt prev = true ->
    filler_from f prev s
    = word_prefix s ++ match word_rest s with
                       | [] => []
                       | c :: r => c :: filler_from f (Some c) r
                       end.
Proof.
  intros Hf. unfold filler_from, word_prefix, word_rest.
  induction s as [|c s IH]; intros prev Hp.
  - apply sub_scan_nil. rewrite match_filler, Hp by exact Hf. reflexivity.
  - rewrite sub_scan_nomatch by (rewrite match_filler, Hp by exact Hf; reflexivity).
    cbn [takewhile dropwhile]. destruct (is_word c) eqn:Hc; [|reflexivity].
    rewrite (IH (Some c) Hc). reflexivity.
Qed.

Lemma words_word_app w t :
  w <> [] -> forallb is_word w = true -> starts is_word t = false ->
  words (w ++ t) = w :: words t.
Proof.
  intros Hn Hw Ht. destruct (word_prefix_app _ _ Hw Ht) as [E1 E2].
  rewrite words_word_start, E1, E2; [reflexivity|].
  destruct w as [|c w]; [congruence|]. cbn [app starts forallb] in *.
  apply andb_true_iff in Hw. tauto.
Qed.

Lemma word_prefix_all s : forallb is_word (word_prefix s) = true.
Proof. apply takewhile_all. Qed.

Lemma word_rest_starts s : starts is_word (word_rest s) = false.
Proof. apply dropwhile_starts. Qed.

Lemma filler_words f :
  good_filler f = true ->
  forall s prev,
    word_opt prev = false ->
    words (filler_from f prev s)
    = filter (fun w => negb (eq_ic f w)) (words s).
Proof.
  intros Hf. induction s as [s IH] using str_length_ind. intros prev Hp.
  pose proof (match_filler f prev s Hf) as Hm. rewrite Hp in Hm.
  destruct s as [|c s'].
  - unfold filler_from. rewrite sub_scan_nil; [reflexivity|].
    rewrite Hm. cbn [word_prefix takewhile]. rewrite (eq_ic_f_nil f Hf).
    reflexivity.
  - destruct (is_word c) eqn:Hc.
    + (* the text starts with a word *)
      pose proof (word_split (c :: s')) as Hsplit.
      pose proof (word_prefix_all (c :: s')) as Hall.
      pose proof (word_rest_starts (c :: s')) as Hrest.
      assert (Hw : word_prefix (c :: s') = c :: word_prefix s').
      { unfold word_prefix. cbn [takewhile]. rewrite Hc. reflexivity. }
      assert (Hr : word_rest (c :: s') = word_rest s').
      { unfold word_rest. cbn [dropwhile]. rewrite Hc. reflexivity. }
      rewrite Hw, Hr in *.
      set (w := c :: word_prefix s') in *. set (rest := word_rest s') in *.
      assert (Hwords : words (c :: s') = w :: words rest).
      { rewrite Hsplit. apply words_word_app; [discriminate | exact Hall | exact Hrest]. }
      rewrite Hwords. cbn [filter].
      assert (Hlen : (length rest <= length s')%nat) by apply dropwhile_length.
      assert (Hafter :
        forall p, word_opt p = true ->
          words (filler_from f p rest)
          = filter (fun w0 => negb (eq_ic f w0)) (words rest)).
      { intros p Hpw. rewrite (filler_inword f Hf rest p Hpw).
        unfold word_prefix at 1. rewrite (takewhile_nil _ _ Hrest). cbn [app].
        unfold word_rest at 1. rewrite (dropwhile_id _ _ Hrest).
        destruct rest as [|c' r] eqn:Er; [reflexivity|]. cbn [starts] in Hrest.
        rewrite !words_other_start by exact Hrest.
        apply IH; [simpl in *; lia | exact Hrest]. }
      destruct (eq_ic f w) eqn:He; cbn [negb].
      * (* the word is the filler: it is removed *)
        destruct rest as [|p t] eqn:Er.
        -- cbn [filler_end] in Hm. rewrite app_nil_r in Hsplit.
           unfold filler_from. rewrite Hsplit at 1.
           assert (E : w = c :: word_prefix s' ++ []) by (rewrite app_nil_r; reflexivity).
           rewrite E. rewrite Hsplit, E in Hm.
           rewrite (sub_scan_match _ _ _ _ _ _ Hm). cbn [expand flat_map app].
           apply Hafter. apply (prev_after_word_cons None). exact Hall.
        -- cbn [filler_end] in Hm.
           destruct (is_dot_comma p && starts is_word t)%bool eqn:Hd.
           ++ apply andb_true_iff in Hd. destruct Hd as [Hd _].
              pose proof (dot_comma_not_word _ Hd) as Hpw.
              assert (E : c :: s' = c :: (word_prefix s' ++ [p]) ++ t).
              { rewrite Hsplit at 1. unfold w. cbn [app].
                rewrite <- app_assoc. reflexivity. }
              unfold filler_from. rewrite E at 1. rewrite E in Hm.
              rewrite (sub_scan_match _ _ _ _ _ _ Hm). cbn [expand flat_map app].
              rewrite prev_after_last.
              rewrite words_other_start by exact Hpw.
              apply IH; [simpl in *; lia | exact Hpw].
           ++ assert (E : c :: s' = c :: word_prefix s' ++ p :: t).
              { rewrite Hsplit at 1. reflexivity. }
              unfold filler_from. rewrite E at 1. rewrite E in Hm.
              rewrite (sub_scan_match _ _ _ _ _ _ Hm). cbn [expand flat_map app].
              apply Hafter. apply (prev_after_word_cons None). exact Hall.
      * (* another word: it is kept *)
        unfold filler_from. rewrite sub_scan_nomatch by exact Hm.
        fold (filler_from f (Some c) s').
        rewrite (filler_inword f Hf s' (Some c) Hc). fold rest.
        change (c :: word_prefix s' ++
                  match rest with
                  | [] => []
                  | c0 :: r => c0 :: filler_from f (Some c0) r
                  end)
          with (w ++ match rest with
                     | [] => []
                     | c0 :: r => c0 :: filler_from f (Some c0) r
                     end).
        rewrite words_word_app; [|discriminate | exact Hall |].
        -- f_equal. destruct rest as [|c' r] eqn:Er; [reflexivity|].
           cbn [starts] in Hrest. rewrite !words_other_start by exact Hrest.
           apply IH; [simpl in *; lia | exact Hrest].
        -- destruct rest; [reflexivity | exact Hrest].
    + (* the text starts with another character *)
      assert (Hn : match_at IGNORECASE (filler_pattern f) prev (c :: s') = None).
      { rewrite Hm. unfold word_prefix. cbn [takewhile]. rewrite Hc.
        rewrite (eq_ic_f_nil f Hf). reflexivity. }
      unfold filler_from. rewrite sub_scan_nomatch by exact Hn.
      rewrite !words_other_start by exact Hc.
      apply IH; [simpl; lia | exact Hc].
Qed.

Lemma remove_fillers_words fillers :
  forallb good_filler fillers = true ->
  forall s,
    words (remove_fillers fillers s)
    = filter (fun w => negb (is_filler fillers w)) (words s).
Proof.
  unfold remove_fillers, is_filler.
  induction fillers as [|f fs IH]; intros Hg s.
  - cbn [fold_left existsb negb]. symmetry. apply forallb_filter_id.
    apply forallb_forall. reflexivity.
  - cbn [forallb] in Hg. apply andb_true_iff in Hg. destruct Hg as [Hf Hg].
    cbn [fold_left]. rewrite (IH Hg).
    unfold re_sub. fold (filler_from f None s).
    rewrite (filler_words f Hf s None eq_refl).
    generalize (words s). intros l. induction l as [|w l IHl]; [reflexivity|].
    cbn [filter existsb]. destruct (eq_ic f w); cbn [negb orb filter].
    + exact IHl.
    + destruct (existsb (fun f0 => eq_ic f0 w) fs); cbn [negb];
        rewrite IHl; reflexivity.
Qed.

(** The words of the cleaned text: those of the input that are no filler. *)
Lemma clean_words fillers s :
  forallb good_filler fillers = true ->
  words (clean_with fillers s)
  = filter (fun w => negb (is_filler fillers w)) (words s).
Proof.
  intros Hg. unfold clean_with.
  rewrite words_strip, drop_leading_comma_words.
  unfold fix_punct, re_sub. fold (fix_from None).
  rewrite fix_words.
  unfold collapse_spaces, re_sub. fold (collapse_from None).
  rewrite collapse_words.
  apply remove_fillers_words. exact Hg.
Qed.

(* ===================================================================== *)
(** ** Searching for a whole word *)
(* ===================================================================== *)

Lemma search_unfold ic r prev s :
  search_from ic r prev s
  = (is_some (match_at ic r prev s) ||
     match s with
     | [] => false
     | c :: s' => search_from ic r (Some c) s'
     end)%bool.
Proof.
  destruct s; cbn [search_from]; destruct (match_at ic r prev _); reflexivity.
Qed.

(** A pattern that matches exactly the words equal to [f] is found
    exactly in the texts that hold such a word. *)
Lemma search_words ic r f :
  good_filler f = true ->
  (forall prev s,
      is_some (match_at ic r prev s)
      = (negb (word_opt prev) && eq_ic f (word_prefix s))%bool) ->
  forall s prev,
    search_from ic r prev s
    = existsb (eq_ic f) (words (if word_opt prev then word_rest s else s)).
Proof.
  intros Hf Hr. induction s as [|c s IH]; intros prev.
  - rewrite search_unfold, Hr. cbn [word_prefix takewhile].
    rewrite (eq_ic_f_nil f Hf), andb_false_r.
    destruct (word_opt prev); reflexivity.
  - rewrite search_unfold, Hr, IH. cbn [word_opt].
    unfold word_prefix, word_rest. cbn [takewhile dropwhile].
    destruct (is_word c) eqn:Hc.
    + destruct (word_opt prev); cbn [negb andb orb]; [reflexivity|].
      rewrite (words_word_start (c :: s)) by exact Hc.
      unfold word_prefix, word_rest. cbn [takewhile dropwhile existsb].
      rewrite Hc. reflexivity.
    + rewrite (eq_ic_f_nil f Hf), andb_false_r. cbn [orb].
      destruct (word_opt prev); rewrite (words_other_start c s Hc); reflexivity.
Qed.


Lemma re_search_filler f s :
  good_filler f = true ->
  re_search IGNORECASE (filler_pattern f) s = existsb (eq_ic f) (words s).
Proof.
  intros Hf. unfold re_search.
  rewrite (search_words IGNORECASE (filler_pattern f) f Hf); [reflexivity|].
  intros prev t. rewrite (match_filler f prev t Hf).
  destruct (word_opt prev); [reflexivity|].
  destruct (eq_ic f (word_prefix t)); reflexivity.
Qed.

Lemma FILLERS_good : forallb good_filler FILLERS = true.
Proof. reflexivity. Qed.

Lemma no_filler_among fillers f l :
  In f fillers ->
  existsb (eq_ic f) (filter (fun w => negb (is_filler fillers w)) l) = false.
Proof.
  intros Hin. induction l as [|w l IH]; [reflexivity|]. cbn [filter].
  destruct (is_filler fillers w) eqn:E; cbn [negb]; [exact IH|].
  cbn [existsb]. rewrite IH, orb_false_r.
  destruct (eq_ic f w) eqn:Ef; [|reflexivity].
  assert (H : is_filler fillers w = true).
  { unfold is_filler. apply existsb_exists. exists f. auto. }
  congruence.
Qed.

(* ===================================================================== *)
(** ** No newline in the transcript *)
(* ===================================================================== *)

Lemma has_char_in c s : has_char c s = true <-> In c s.
Proof.
  unfold has_char. rewrite existsb_exists. split.
  - intros (x & Hx & E). apply N.eqb_eq in E. subst. exact Hx.
  - intros H. exists c. split; [exact H | apply N.eqb_refl].
Qed.

Lemma has_char_false c s : has_char c s = false <-> ~ In c s.
Proof.
  rewrite <- has_char_in. destruct (has_char c s); split; congruence.
Qed.

Lemma lines_from_shape :
  forall s cur l,
    ~ In LF cur -> In l (lines_from cur s) ->
    exists b, ~ In LF b /\ (l = b ++ [LF] \/ l = b).
Proof.
  induction s as [|c s IH]; intros cur l Hcur Hl; cbn [lines_from] in Hl.
  - destruct cur as [|d cur]; [destruct Hl|].
    destruct Hl as [<- | []]. exists (rev (d :: cur)). split; [|auto].
    intros H. apply in_rev in H. auto.
  - destruct (N.eqb_spec c LF) as [-> | Hc].
    + destruct Hl as [<- | Hl].
      * exists (rev cur). split; [intros H; apply in_rev in H; auto|].
        left. reflexivity.
      * apply (IH [] l); [intros [] | exact Hl].
    + apply (IH (c :: cur) l); [|exact Hl].
      intros [E | H]; [congruence | auto].
Qed.

Lemma lstrip_all_space s : forallb isspace s = true -> lstrip s = [].
Proof.
  unfold lstrip. induction s as [|c s IH]; [reflexivity|]. cbn [forallb dropwhile].
  intros H. apply andb_true_iff in H. destruct H as [-> H]. auto.
Qed.

Lemma lstrip_app_other a b :
  forallb isspace a = false -> lstrip (a ++ b) = lstrip a ++ b.
Proof.
  unfold lstrip. induction a as [|c a IH]; [discriminate|].
  cbn [forallb app dropwhile]. destruct (isspace c); [|reflexivity].
  cbn [andb]. exact IH.
Qed.

Lemma rstrip_snoc_space t c : isspace c = true -> rstrip (t ++ [c]) = rstrip t.
Proof.
  intros Hc. unfold rstrip. rewrite rev_app_distr. cbn [rev app].
  rewrite lstrip_cons_space by exact Hc. reflexivity.
Qed.

(** The newline that ends a line is stripped with it. *)
Lemma strip_newline b : strip (b ++ [LF]) = strip b.
Proof.
  unfold strip. destruct (forallb isspace b) eqn:E.
  - rewrite (lstrip_all_space b E).
    unfold lstrip. rewrite dropwhile_app_all by exact E. reflexivity.
  - rewrite lstrip_app_other by exact E. apply rstrip_snoc_space. reflexivity.
Qed.

Lemma strip_incl s c : In c (strip s) -> In c s.
Proof.
  intros H. destruct (strip_piece s) as (l & r & E). rewrite E.
  apply in_or_app. right. apply in_or_app. left. exact H.
Qed.

Lemma file_line_stripped content l :
  In l (file_lines content) -> ~ In LF (strip l).
Proof.
  unfold file_lines. intros Hl.
  apply lines_from_shape in Hl; [|intros []].
  destruct Hl as (b & Hb & [-> | ->]).
  - rewrite strip_newline. intros H. apply strip_incl in H. auto.
  - intros H. apply strip_incl in H. auto.
Qed.

Lemma join_chars sep xs c :
  In c (join sep xs) -> In c sep \/ exists x, In x xs /\ In c x.
Proof.
  induction xs as [|x xs IH]; cbn [join]; [intros []|].
  destruct xs as [|y xs].
  - intros H. right. exists x. split; [left; reflexivity | exact H].
  - intros H. apply in_app_or in H. destruct H as [H | H].
    + right. exists x. split; [left; reflexivity | exact H].
    + apply in_app_or in H. destruct H as [H | H]; [left; exact H|].
      apply IH in H. destruct H as [H | (z & Hz & Hc)]; [left; exact H|].
      right. exists z. split; [right; exact Hz | exact Hc].
Qed.

Lemma sanitize_step_eq acc line :
  sanitize_step acc line
  = acc ++ (if discarded (strip line) then [] else [strip line]).
Proof.
  unfold sanitize_step, discarded.
  destruct (is_empty (strip line)); [symmetry; apply app_nil_r|].
  destruct (str_eqb (strip line) (py "WEBVTT")); [symmetry; apply app_nil_r|].
  destruct (str_isdigit (strip line)); [symmetry; apply app_nil_r|].
  destruct (contains (py "-->") (strip line)); [symmetry; apply app_nil_r|].
  reflexivity.
Qed.

(** The loop keeps, in order, the stripped lines that are not discarded. *)
Lemma sanitize_lines_filter lines :
  sanitize_lines lines
  = filter (fun l => negb (discarded l)) (map strip lines).
Proof.
  unfold sanitize_lines.
  assert (H : forall acc,
             fold_left sanitize_step lines acc
             = acc ++ filter (fun l => negb (discarded l)) (map strip lines)).
  { induction lines as [|l lines IH]; intros acc; cbn [fold_left map filter].
    - symmetry. apply app_nil_r.
    - rewrite IH, sanitize_step_eq, <- app_assoc.
      destruct (discarded (strip l)); reflexivity. }
  apply (H []).
Qed.

Lemma sanitize_vtt_no_newline content : ~ In LF (sanitize_vtt content).
Proof.
  unfold sanitize_vtt. intros H. apply join_chars in H.
  destruct H as [H | (x & Hx & Hc)].
  - change (py " ") with [SP] in H. destruct H as [H | []]. discriminate.
  - rewrite sanitize_lines_filter in Hx. apply filter_In in Hx.
    destruct Hx as [Hx _]. apply in_map_iff in Hx.
    destruct Hx as (l & <- & Hl). exact (file_line_stripped _ _ Hl Hc).
Qed.

Lemma re_sub_no_newline ic r repl s :
  ~ In LF (repl_text repl) -> ~ In LF s -> ~ In LF (re_sub ic r repl s).
Proof.
  unfold re_sub. intros Hr Hs H. apply sub_scan_chars in H. tauto.
Qed.

Lemma remove_fillers_no_newline fillers :
  forall s, ~ In LF s -> ~ In LF (remove_fillers fillers s).
Proof.
  unfold remove_fillers.
  induction fillers as [|f fs IH]; intros s Hs; [exact Hs|].
  cbn [fold_left]. apply IH. apply re_sub_no_newline; [intros [] | exact Hs].
Qed.

Lemma clean_with_no_newline fillers s :
  ~ In LF s -> ~ In LF (clean_with fillers s).
Proof.
  intros Hs H. unfold clean_with in H. apply strip_incl in H. revert H.
  apply re_sub_no_newline; [intros []|].
  apply re_sub_no_newline; [intros []|].
  apply re_sub_no_newline.
  - change (repl_text [RLit (py " ")]) with [SP]. intros [E | []]. discriminate.
  - apply remove_fillers_no_newline. exact Hs.
Qed.

Lemma split_from_no_sep sep :
  forall s cur, ~ In sep s -> split_from sep cur s = [rev cur ++ s].
Proof.
  induction s as [|c s IH]; intros cur H; cbn [split_from].
  - rewrite app_nil_r. reflexivity.
  - destruct (N.eqb_spec c sep) as [-> | _]; [exfalso; apply H; left; reflexivity|].
    rewrite IH by (intros Hin; apply H; right; exact Hin).
    cbn [rev]. rewrite <- app_assoc. reflexivity.
Qed.

Lemma split_from_pieces sep :
  forall s cur p,
    In p (split_from sep cur s) -> ~ In sep cur -> ~ In sep p.
Proof.
  induction s as [|c s IH]; intros cur p Hp Hcur; cbn [split_from] in Hp.
  - destruct Hp as [<- | []]. intros H. apply in_rev in H. auto.
  - destruct (N.eqb_spec c sep) as [-> | Hc].
    + destruct Hp as [<- | Hp]; [intros H; apply in_rev in H; auto|].
      apply (IH [] p Hp). intros [].
    + apply (IH (c :: cur) p Hp). intros [E | H]; [congruence | auto].
Qed.

Lemma create_pdf_one_piece text :
  ~ In LF text -> (body_paragraphs (create_pdf text) <= 1)%nat.
Proof.
  intros H. unfold create_pdf, split. rewrite (split_from_no_sep LF text [] H).
  cbn [rev app fold_left]. destruct (is_empty (strip text)); cbn; lia.
Qed.

(* ===================================================================== *)
(** ** A text without a match is left as it is *)
(* ===================================================================== *)

Lemma sub_scan_no_match ic r repl :
  forall s prev,
    search_from ic r prev s = false -> sub_scan ic r repl 0 prev s = s.
Proof.
  induction s as [|c s IH]; intros prev H; rewrite search_unfold in H;
    apply orb_false_iff in H; destruct H as [Hm Hs].
  - apply sub_scan_nil. destruct (match_at ic r prev []); [discriminate | reflexivity].
  - rewrite sub_scan_nomatch
      by (destruct (match_at ic r prev (c :: s)); [discriminate | reflexivity]).
    rewrite (IH (Some c) Hs). reflexivity.
Qed.

(** [\s{2,}] is found exactly where two whitespace characters meet. *)
Lemma search_spaces ic :
  forall s prev,
    search_from ic spaces_pattern prev s = adjacent double_space s.
Proof.
  induction s as [|c s IH]; intros prev; rewrite search_unfold, match_spaces.
  - reflexivity.
  - rewrite IH. cbn [adjacent takewhile]. f_equal.
    rewrite starts_double_space. destruct (isspace c); [|reflexivity].
    destruct s as [|d s]; [reflexivity|]. cbn [takewhile starts length].
    destruct (isspace d); reflexivity.
Qed.

Lemma space_run_before_punct :
  forall s c,
    isspace c = true -> starts is_punct (lstrip s) = true ->
    adjacent space_before_punct (c :: s) = true.
Proof.
  induction s as [|d s IH]; intros c Hc Hp; [discriminate|].
  cbn [adjacent]. rewrite starts_space_before_punct. cbn [starts].
  destruct (isspace d) eqn:Hd.
  - rewrite lstrip_cons_space in Hp by exact Hd.
    pose proof (IH d Hd Hp) as H. cbn [adjacent] in H.
    rewrite H. apply orb_true_r.
  - rewrite lstrip_cons_other in Hp by exact Hd. cbn [starts] in Hp.
    rewrite Hc, Hp. reflexivity.
Qed.

(** [\s+([.,!?])] is found only where a whitespace character stands
    before one of the four. *)
Lemma search_space_punct :
  forall s prev,
    adjacent space_before_punct s = false ->
    search_from NOFLAGS space_punct_pattern prev s = false.
Proof.
  induction s as [|c s IH]; intros prev H;
    rewrite search_unfold, match_space_punct; [reflexivity|].
  assert (Ht : adjacent space_before_punct s = false).
  { cbn [adjacent] in H. apply orb_false_iff in H. tauto. }
  rewrite (IH (Some c) Ht), orb_false_r. cbn [starts].
  destruct (isspace c) eqn:Hc; [|reflexivity].
  rewrite lstrip_cons_space by exact Hc.
  destruct (starts is_punct (lstrip s)) eqn:Hp.
  - rewrite (space_run_before_punct s c Hc Hp) in H. discriminate.
  - destruct (lstrip s) as [|p rest]; [reflexivity|]. cbn [starts] in Hp.
    rewrite Hp. reflexivity.
Qed.

Lemma lstrip_id s : starts isspace s = false -> lstrip s = s.
Proof. apply dropwhile_id. Qed.

Lemma lstrip_lstrip s : lstrip (lstrip s) = lstrip s.
Proof. apply lstrip_id, dropwhile_starts. Qed.

Lemma rstrip_rstrip s : rstrip (rstrip s) = rstrip s.
Proof. unfold rstrip. rewrite rev_involutive, lstrip_lstrip. reflexivity. Qed.

Lemma rstrip_starts s : starts isspace s = false -> starts isspace (rstrip s) = false.
Proof.
  intros H. destruct (rstrip_prefix s) as [r Hr].
  destruct (rstrip s) as [|c t]; [reflexivity|].
  rewrite Hr in H. exact H.
Qed.

(** [strip] leaves nothing for a second [strip]. *)
Lemma strip_strip s : strip (strip s) = strip s.
Proof.
  unfold strip. rewrite (lstrip_id (rstrip (lstrip s))).
  - apply rstrip_rstrip.
  - apply rstrip_starts, dropwhile_starts.
Qed.

Lemma remove_fillers_no_match fillers :
  forall s,
    forallb (fun f => negb (re_search IGNORECASE (filler_pattern f) s)) fillers
    = true ->
    remove_fillers fillers s = s.
Proof.
  unfold remove_fillers. induction fillers as [|f fs IH]; intros s H; [reflexivity|].
  cbn [forallb fold_left] in *. apply andb_true_iff in H. destruct H as [Hf H].
  apply negb_true_iff in Hf. unfold re_search in Hf. unfold re_sub.
  rewrite (sub_scan_no_match _ _ _ _ _ Hf). apply IH. exact H.
Qed.

Lemma clean_no_filler_match x :
  forallb (fun f => negb (re_search IGNORECASE (filler_pattern f)
                            (clean_hesitations x))) FILLERS = true.
Proof.
  apply forallb_forall. intros f Hin. apply negb_true_iff.
  assert (Hf : good_filler f = true).
  { pose proof FILLERS_good as H. rewrite forallb_forall in H. auto. }
  rewrite (re_search_filler f _ Hf).
  unfold clean_hesitations. rewrite (clean_words FILLERS x FILLERS_good).
  apply no_filler_among. exact Hin.
Qed.

Lemma clean_spacing x :
  adjacent double_space (clean_hesitations x) = false /\
  adjacent space_before_punct (clean_hesitations x) = false.
Proof.
  unfold clean_hesitations, clean_with.
  set (t1 := remove_fillers FILLERS x).
  pose proof (collapse_no_double_space t1 None) as H2.
  change (collapse_from None t1) with (collapse_spaces t1) in H2.
  set (t2 := collapse_spaces t1) in *.
  pose proof (fix_keeps_no_double_space t2 None H2) as H3.
  pose proof (fix_no_space_before_punct t2 None) as H3'.
  change (fix_from None t2) with (fix_punct t2) in H3, H3'.
  set (t3 := fix_punct t2) in *.
  destruct (drop_leading_comma_suffix t3) as [l Hl].
  destruct (strip_piece (drop_leading_comma t3)) as (l' & r' & Hp).
  rewrite Hl, Hp in H3, H3'.
  apply adjacent_app_r in H3. apply adjacent_app_r in H3'.
  apply adjacent_piece in H3. apply adjacent_piece in H3'. auto.
Qed.

(** Steps 1, 2, 3 and 5 leave the output of a run as it is: a second run
    changes it exactly when step 4 finds a comma at its start. *)
Lemma clean_again x :
  clean_hesitations (clean_hesitations x)
  = strip (drop_leading_comma (clean_hesitations x)).
Proof.
  set (y := clean_hesitations x).
  unfold clean_hesitations at 1. unfold clean_with.
  rewrite (remove_fillers_no_match FILLERS y (clean_no_filler_match x)).
  destruct (clean_spacing x) as [H2 H3]. fold y in H2, H3.
  assert (E2 : collapse_spaces y = y).
  { unfold collapse_spaces, re_sub. apply sub_scan_no_match.
    rewrite search_spaces. exact H2. }
  rewrite E2.
  assert (E3 : fix_punct y = y).
  { unfold fix_punct, re_sub. apply sub_scan_no_match.
    apply search_space_punct. exact H3. }
  rewrite E3. reflexivity.
Qed.

(** Where the output does not start with a comma, a second run returns it
    unchanged. *)
Lemma clean_fixed_point x :
  starts (N.eqb COMMA) (clean_hesitations x) = false ->
  clean_hesitations (clean_hesitations x) = clean_hesitations x.
Proof.
  intros H. rewrite clean_again, drop_leading_comma_eq.
  assert (Hs : strip (clean_hesitations x) = clean_hesitations x).
  { unfold clean_hesitations, clean_with. apply strip_strip. }
  destruct (clean_hesitations x) as [|c t]; [reflexivity|].
  cbn [starts] in H. rewrite H. exact Hs.
Qed.

(** Where it starts with a comma, the second run returns a shorter text. *)
Lemma clean_shrinks x :
  starts (N.eqb COMMA) (clean_hesitations x) = true ->
  (length (clean_hesitations (clean_hesitations x))
   < length (clean_hesitations x))%nat.
Proof.
  intros H. rewrite clean_again, drop_leading_comma_eq.
  destruct (clean_hesitations x) as [|c t]; [discriminate|].
  cbn [starts] in H. rewrite H.
  destruct (strip_piece (lstrip t)) as (l & r & E).
  pose proof (lstrip_length t) as Hl. rewrite E in Hl at 1.
  rewrite !length_app in Hl. simpl. lia.
Qed.

Lemma lstrip_keeps_comma t :
  adjacent space_before_punct t = false ->
  starts (N.eqb COMMA) (lstrip t) = starts (N.eqb COMMA) t.
Proof.
  intros H. destruct t as [|c t']; [reflexivity|].
  destruct (isspace c) eqn:Hc; [|rewrite lstrip_cons_other by exact Hc; reflexivity].
  rewrite lstrip_cons_space by exact Hc. cbn [starts].
  destruct (N.eqb_spec COMMA c) as [<- | _]; [discriminate|].
  destruct (lstrip t') as [|d u] eqn:E; [reflexivity|]. cbn [starts].
  destruct (N.eqb_spec COMMA d) as [<- | _]; [|reflexivity].
  rewrite (space_run_before_punct t' c Hc) in H; [discriminate|].
  rewrite E. reflexivity.
Qed.

Lemma rstrip_keeps_head (p : char -> bool) u :
  starts isspace u = false -> starts p (rstrip u) = starts p u.
Proof.
  intros H. unfold rstrip.
  assert (E : u = rev (lstrip (rev u)) ++ rev (takewhile isspace (rev u))).
  { rewrite <- rev_app_distr, <- lstrip_split, rev_involutive. reflexivity. }
  destruct (rev (lstrip (rev u))) as [|c t].
  - destruct u as [|d u']; [reflexivity|]. cbn [starts] in H.
    assert (Hd : In d (takewhile isspace (rev (d :: u')))).
    { apply in_rev. cbn [app] in E. rewrite <- E. left. reflexivity. }
    pose proof (takewhile_all isspace (rev (d :: u'))) as Ha.
    rewrite forallb_forall in Ha. rewrite (Ha d Hd) in H. discriminate.
  - rewrite E. reflexivity.
Qed.

(** The output starts with a comma exactly when two commas stand at the
    start of the text that reaches step 4: one of them is removed. *)
Lemma clean_starts_comma x :
  starts (N.eqb COMMA) (clean_hesitations x)
  = match fix_punct (collapse_spaces (remove_fillers FILLERS x)) with
    | a :: b :: _ => (N.eqb COMMA a && N.eqb COMMA b)%bool
    | _ => false
    end.
Proof.
  unfold clean_hesitations, clean_with.
  set (t3 := fix_punct (collapse_spaces (remove_fillers FILLERS x))).
  assert (H3 : adjacent space_before_punct t3 = false)
    by apply fix_no_space_before_punct.
  unfold strip. rewrite rstrip_keeps_head by apply dropwhile_starts.
  rewrite drop_leading_comma_eq. destruct t3 as [|a t]; [reflexivity|].
  assert (Ht : adjacent space_before_punct t = false).
  { cbn [adjacent] in H3. apply orb_false_iff in H3. tauto. }
  destruct (N.eqb COMMA a) eqn:Ea.
  - rewrite lstrip_lstrip, (lstrip_keeps_comma t Ht).
    destruct t; reflexivity.
  - rewrite (lstrip_keeps_comma (a :: t) H3). cbn [starts]. rewrite Ea.
    destruct t; reflexivity.
Qed.


(* ===================================================================== *)
(** ** The claims *)
(* ===================================================================== *)

(** C1: [clean_hesitations] is not idempotent.  On "Um, uh, hello" the
    two fillers leave two commas, step 4 removes one of them, and the
    result ", hello" still starts with a comma; a second run removes it
    and returns "hello". *)
Theorem clean_hesitations_twice :
  clean_hesitations (py "Um, uh, hello") = py ", hello" /\
  clean_hesitations (clean_hesitations (py "Um, uh, hello")) = py "hello".
Proof. split; vm_compute; reflexivity. Qed.

(** C2: the order of the filler passes shows in the result.  On "uh.um"
    the order of the source (uh, um, hmm) removes "uh." and then "um" and
    returns the empty text; with um before uh the pass for um leaves
    "uh.", the pass for uh removes "uh" only, and the result is ".". *)
Theorem filler_order_matters :
  clean_with [py "uh"; py "um"; py "hmm"] (py "uh.um") = [] /\
  clean_with [py "um"; py "uh"; py "hmm"] (py "uh.um") = py "." /\
  clean_with [py "uh"; py "um"; py "hmm"] (py "a uh,um b") = py "a b" /\
  clean_with [py "um"; py "uh"; py "hmm"] (py "a uh,um b") = py "a, b".
Proof. repeat split; vm_compute; reflexivity. Qed.

(** C3: the filler passes keep the [,] or [.] behind a filler unless a
    word character follows it at once: from "um, hi" they remove "um" and
    leave ", hi"; from "um." they leave "."; from "hello, um, world" they
    leave "hello, , world"; only in "um,hello" does the comma go. *)
Theorem filler_pass_keeps_punctuation :
  remove_fillers FILLERS (py "um, hi") = py ", hi" /\
  remove_fillers FILLERS (py "um.") = py "." /\
  remove_fillers FILLERS (py "hello, um, world") = py "hello, , world" /\
  remove_fillers FILLERS (py "um,hello") = py "hello".
Proof. repeat split; vm_compute; reflexivity. Qed.

(** C4: the output of [clean_hesitations] can start with a comma, and
    with a comma followed by whitespace: step 4 removes one leading comma
    only. *)
Theorem clean_hesitations_leading_comma :
  clean_hesitations (py "Um, uh, hello") = py ", hello" /\
  clean_hesitations (py ",,a") = py ",a".
Proof. split; vm_compute; reflexivity. Qed.


(** C6: for every text [x], the output of [clean_hesitations] has no two
    whitespace characters in a row and no whitespace character right
    before [.], [,], [!] or [?]; neither [\s{2,}] nor [\s+([.,!?])], the
    patterns of steps 2 and 3, is found in it. *)
Theorem clean_hesitations_spacing (x : str) :
  adjacent double_space (clean_hesitations x) = false /\
  adjacent space_before_punct (clean_hesitations x) = false /\
  re_search NOFLAGS spaces_pattern (clean_hesitations x) = false /\
  re_search NOFLAGS space_punct_pattern (clean_hesitations x) = false.
Proof.
  destruct (clean_spacing x) as [H2 H3]. unfold re_search.
  rewrite search_spaces, (search_space_punct _ None H3). auto.
Qed.

(** C7, amended: on the payload whose lines are [example_lines],
    [sanitize_vtt] returns "Uh, hello world. um this is, hmm a test" (the
    parser removes no filler: the "um" of the last line is still there),
    and [clean_hesitations] of that returns
    "hello world. this is, a test". *)
Theorem example_transcript :
  file_lines (join [LF] example_lines)
  = map (fun l => l ++ [LF]) (removelast example_lines)
    ++ [py "um this is, hmm a test"] /\
  join (py " ") (sanitize_lines example_lines)
  = py "Uh, hello world. um this is, hmm a test" /\
  sanitize_vtt (join [LF] example_lines)
  = py "Uh, hello world. um this is, hmm a test" /\
  clean_hesitations (sanitize_vtt (join [LF] example_lines))
  = py "hello world. this is, a test".
Proof. repeat split; vm_compute; reflexivity. Qed.

(** C10: for every payload, the transcript handed to the exporters,
    [clean_hesitations (sanitize_vtt content)], holds no newline, and
    [create_pdf] lays out at most one body paragraph for it. *)
Theorem transcript_single_line (content : str) :
  has_char LF (clean_hesitations (sanitize_vtt content)) = false /\
  (body_paragraphs (create_pdf (clean_hesitations (sanitize_vtt content)))
   <= 1)%nat.
Proof.
  assert (H : ~ In LF (clean_hesitations (sanitize_vtt content))).
  { apply clean_with_no_newline, sanitize_vtt_no_newline. }
  split; [apply has_char_false; exact H | apply create_pdf_one_piece; exact H].
Qed.

(** C9: one press of the button sends two requests for the same URL,
    whatever the server answers: the result of the first call of
    [download_subtitles_file] is dropped and the second call is made even
    when the first one failed. *)
Theorem sanitize_button_fetches_twice (w : world) (sub_path : str) :
  requests (snd (setup_sanitize_download true sub_path w))
  = requests w ++ [full_url_of sub_path; full_url_of sub_path].
Proof.
  unfold setup_sanitize_download, full_url_of.
  unfold download_subtitles_file, bind, requests_get, write_subtitle_file,
    show, ret, st_stop, read_subtitle_file.
  cbn [requests server subtitle_file page fst snd].
  repeat match goal with
         | |- context [if ?b then _ else _] =>
             destruct b; cbn [requests server subtitle_file page fst snd]
         end;
    rewrite <- ?app_assoc; reflexivity.
Qed.

(* ===================================================================== *)
(** ** Further properties of [clean_hesitations] *)
(* ===================================================================== *)

Lemma sub_scan_length ic r repl :
  (forall prev s rest g,
      match_at ic r prev s = Some (rest, g) ->
      (length (expand repl g) + length rest <= length s)%nat) ->
  forall s skip prev,
    (length (sub_scan ic r repl skip prev s) + Nat.min skip (length s)
     <= length s)%nat.
Proof.
  intros Hm. induction s as [|c s IH]; intros skip prev.
  - destruct skip as [|n]; cbn [sub_scan]; [|simpl; lia].
    destruct (match_at ic r prev []) as [[rest g]|] eqn:E; [|simpl; lia].
    apply Hm in E. rewrite app_nil_r. simpl in *. lia.
  - destruct skip as [|n]; cbn [sub_scan].
    + destruct (match_at ic r prev (c :: s)) as [[rest g]|] eqn:E.
      * apply Hm in E. rewrite length_app.
        destruct (length (c :: s) - length rest)%nat as [|n] eqn:En.
        -- pose proof (IH 0%nat (Some c)) as H. cbn [length] in *. lia.
        -- pose proof (IH n (Some c)) as H. cbn [length] in *. lia.
      * pose proof (IH 0%nat (Some c)) as H. cbn [length] in *. lia.
    + pose proof (IH n (Some c)) as H. cbn [length]. lia.
Qed.

Lemma re_sub_delete_length ic r s :
  (length (re_sub ic r [] s) <= length s)%nat.
Proof.
  unfold re_sub.
  assert (H : forall prev t rest g,
             match_at ic r prev t = Some (rest, g) ->
             (length (expand [] g) + length rest <= length t)%nat).
  { intros prev t rest g E. apply match_at_sound in E.
    destruct E as [[m ->] _]. rewrite length_app. simpl. lia. }
  pose proof (sub_scan_length _ _ _ H s 0%nat None). lia.
Qed.

Lemma remove_fillers_length fillers :
  forall s, (length (remove_fillers fillers s) <= length s)%nat.
Proof.
  unfold remove_fillers. induction fillers as [|f fs IH]; intros s; [simpl; lia|].
  cbn [fold_left]. etransitivity; [apply IH | apply re_sub_delete_length].
Qed.

Lemma collapse_spaces_length s : (length (collapse_spaces s) <= length s)%nat.
Proof.
  unfold collapse_spaces, re_sub.
  assert (H : forall prev t rest g,
             match_at NOFLAGS spaces_pattern prev t = Some (rest, g) ->
             (length (expand [RLit (py " ")] g) + length rest <= length t)%nat).
  { intros prev t rest g E. rewrite match_spaces in E.
    destruct (Nat.leb_spec 2 (length (takewhile isspace t))) as [H2 | H2];
      [|discriminate].
    inversion E; subst. rewrite (lstrip_split t) at 2. rewrite length_app.
    change (length (expand [RLit (py " ")] [])) with 1%nat. lia. }
  pose proof (sub_scan_length _ _ _ H s 0%nat None). lia.
Qed.

Lemma fix_punct_length s : (length (fix_punct s) <= length s)%nat.
Proof.
  unfold fix_punct, re_sub.
  assert (H : forall prev t rest g,
             match_at NOFLAGS space_punct_pattern prev t = Some (rest, g) ->
             (length (expand [RGroup 1] g) + length rest <= length t)%nat).
  { intros prev t rest g E. rewrite match_space_punct in E.
    destruct (starts isspace t) eqn:Hs; [|discriminate].
    pose proof (lstrip_split t) as Hsplit.
    destruct (lstrip t) as [|q u]; [discriminate|].
    destruct (is_punct q); [|discriminate]. inversion E; subst.
    rewrite Hsplit, length_app.
    change (length (expand [RGroup 1] [[q]])) with 1%nat. simpl. lia. }
  pose proof (sub_scan_length _ _ _ H s 0%nat None). lia.
Qed.

Lemma strip_length s : (length (strip s) <= length s)%nat.
Proof.
  destruct (strip_piece s) as (l & r & E). rewrite E at 2.
  rewrite !length_app. lia.
Qed.

Lemma remove_fillers_chars fillers c :
  forall s, In c (remove_fillers fillers s) -> In c s.
Proof.
  unfold remove_fillers. induction fillers as [|f fs IH]; intros s H; [exact H|].
  cbn [fold_left] in H. apply IH in H. unfold re_sub in H.
  apply sub_scan_chars in H. destruct H as [H | []]. exact H.
Qed.

Lemma clean_with_chars fillers x c :
  In c (clean_with fillers x) -> In c x \/ c = SP.
Proof.
  unfold clean_with. intros H. apply strip_incl in H.
  unfold drop_leading_comma, re_sub in H. apply sub_scan_chars in H.
  destruct H as [H | []].
  unfold fix_punct, re_sub in H. apply sub_scan_chars in H.
  destruct H as [H | []].
  unfold collapse_spaces, re_sub in H. apply sub_scan_chars in H.
  destruct H as [H | H].
  - left. apply (remove_fillers_chars _ _ _ H).
  - right. change (repl_text [RLit (py " ")]) with [SP] in H.
    destruct H as [H | []]. auto.
Qed.

Lemma strip_trimmed s : trimmed (strip s) = true.
Proof.
  unfold trimmed, strip.
  rewrite rstrip_starts by apply dropwhile_starts.
  unfold rstrip. rewrite rev_involutive.
  unfold lstrip at 1. rewrite dropwhile_starts. reflexivity.
Qed.

Lemma trimmed_strip s : trimmed s = true -> strip s = s.
Proof.
  unfold trimmed. intros H. apply andb_true_iff in H. destruct H as [H1 H2].
  apply negb_true_iff in H1. apply negb_true_iff in H2.
  unfold strip, rstrip. rewrite (lstrip_id s H1), (lstrip_id (rev s) H2).
  apply rev_involutive.
Qed.

Lemma no_filler_no_match fillers s :
  forallb good_filler fillers = true ->
  existsb (is_filler fillers) (words s) = false ->
  forallb (fun f => negb (re_search IGNORECASE (filler_pattern f) s)) fillers
  = true.
Proof.
  intros Hg Hn. apply forallb_forall. intros f Hin. apply negb_true_iff.
  rewrite forallb_forall in Hg. rewrite (re_search_filler f s (Hg f Hin)).
  destruct (existsb (eq_ic f) (words s)) eqn:E; [|reflexivity].
  apply existsb_exists in E. destruct E as (w & Hw & Hf).
  assert (H : existsb (is_filler fillers) (words s) = true).
  { apply existsb_exists. exists w. split; [exact Hw|].
    unfold is_filler. apply existsb_exists. exists f. auto. }
  congruence.
Qed.

(** X1: the words of the output of [clean_hesitations] (its maximal runs
    of word characters) are the words of the input that are no filler,
    unchanged and in their order: no other word is removed, cut or
    re-cased. *)
Theorem clean_hesitations_words (x : str) :
  words (clean_hesitations x)
  = filter (fun w => negb (is_filler FILLERS w)) (words x).
Proof. apply clean_words. exact FILLERS_good. Qed.

(** X2: the output of [clean_hesitations] neither starts nor ends with a
    whitespace character. *)
Theorem clean_hesitations_trimmed (x : str) :
  starts isspace (clean_hesitations x) = false /\
  starts isspace (rev (clean_hesitations x)) = false.
Proof.
  pose proof (strip_trimmed
                (drop_leading_comma
                   (fix_punct (collapse_spaces (remove_fillers FILLERS x)))))
    as H.
  unfold trimmed in H. apply andb_true_iff in H. destruct H as [H1 H2].
  apply negb_true_iff in H1. apply negb_true_iff in H2. auto.
Qed.

(** X3: [clean_hesitations] writes no character of its own but the
    blank: every character of the output is a character of the input or
    U+0020. *)
Theorem clean_hesitations_characters (x : str) :
  forallb (fun c => has_char c x || N.eqb c SP)%bool (clean_hesitations x)
  = true.
Proof.
  apply forallb_forall. intros c Hc. apply clean_with_chars in Hc.
  apply orb_true_iff. destruct Hc as [Hc | ->].
  - left. apply has_char_in. exact Hc.
  - right. reflexivity.
Qed.

(** X4: [clean_hesitations] never returns a longer text than it was
    given. *)
Theorem clean_hesitations_length (x : str) :
  (length (clean_hesitations x) <= length x)%nat.
Proof.
  unfold clean_hesitations, clean_with.
  etransitivity; [apply strip_length|].
  etransitivity; [apply re_sub_delete_length|].
  etransitivity; [apply fix_punct_length|].
  etransitivity; [apply collapse_spaces_length|].
  apply remove_fillers_length.
Qed.

(** X5: a text that holds no filler word, no two whitespace characters
    in a row, no whitespace before [.,!?], no comma at its start and no
    whitespace at its ends is returned as it is. *)
Theorem clean_hesitations_keeps_clean_text (x : str) :
  existsb (is_filler FILLERS) (words x) = false ->
  adjacent double_space x = false ->
  adjacent space_before_punct x = false ->
  starts (N.eqb COMMA) x = false ->
  trimmed x = true ->
  clean_hesitations x = x.
Proof.
  intros Hw H2 H3 Hc Ht. unfold clean_hesitations, clean_with.
  rewrite (remove_fillers_no_match FILLERS x
             (no_filler_no_match FILLERS x FILLERS_good Hw)).
  assert (E2 : collapse_spaces x = x).
  { unfold collapse_spaces, re_sub. apply sub_scan_no_match.
    rewrite search_spaces. exact H2. }
  rewrite E2.
  assert (E3 : fix_punct x = x).
  { unfold fix_punct, re_sub. apply sub_scan_no_match.
    apply search_space_punct. exact H3. }
  rewrite E3, drop_leading_comma_eq.
  destruct x as [|c t]; [reflexivity|]. cbn [starts] in Hc. rewrite Hc.
  apply trimmed_strip. exact Ht.
Qed.

(** X6: where the output of [clean_hesitations] does not start with a
    comma, a second run returns it unchanged. *)
Theorem clean_hesitations_second_run (x : str) :
  starts (N.eqb COMMA) (clean_hesitations x) = false ->
  clean_hesitations (clean_hesitations x) = clean_hesitations x.
Proof. apply clean_fixed_point. Qed.

(** X7: the output of [clean_hesitations] starts with a comma exactly
    when the text that reaches step 4 (after the filler passes and the
    two whitespace steps) starts with two commas: step 4 removes the
    first of them only. *)
Theorem clean_hesitations_comma_start (x : str) :
  starts (N.eqb COMMA) (clean_hesitations x)
  = match fix_punct (collapse_spaces (remove_fillers FILLERS x)) with
    | a :: b :: _ => (N.eqb COMMA a && N.eqb COMMA b)%bool
    | _ => false
    end.
Proof. apply clean_starts_comma. Qed.


(** X9: the filler passes leave a text without a filler word as it is:
    a filler inside a longer word (umbrella, hummus) is not touched. *)
Theorem remove_fillers_keeps_other_text (x : str) :
  existsb (is_filler FILLERS) (words x) = false ->
  remove_fillers FILLERS x = x.
Proof.
  intros H. apply remove_fillers_no_match.
  apply no_filler_no_match; [exact FILLERS_good | exact H].
Qed.

(* ===================================================================== *)
(** ** Further properties of [sanitize_vtt] *)
(* ===================================================================== *)

Lemma universal_newlines_no_cr :
  forall s, ~ In CR (universal_newlines s).
Proof.
  induction s as [s IH] using str_length_ind.
  destruct s as [|c s']; [intros []|]. cbn [universal_newlines].
  destruct (N.eqb_spec c CR) as [-> | Hc].
  - intros [E | H]; [discriminate|].
    destruct s' as [|d s'']; [destruct H|].
    destruct (N.eqb d LF); revert H; apply IH; simpl; lia.
  - intros [E | H]; [congruence|]. revert H. apply IH. simpl. lia.
Qed.

Lemma universal_newlines_app x r :
  ~ In CR x -> universal_newlines (x ++ r) = x ++ universal_newlines r.
Proof.
  induction x as [|c x IH]; intros H; [reflexivity|].
  cbn [app universal_newlines].
  destruct (N.eqb_spec c CR) as [-> | _]; [exfalso; apply H; left; reflexivity|].
  rewrite IH by (intros Hin; apply H; right; exact Hin). reflexivity.
Qed.

Lemma universal_newlines_id x : ~ In CR x -> universal_newlines x = x.
Proof.
  intros H. rewrite <- (app_nil_r x) at 1.
  rewrite (@universal_newlines_app x [] H). apply app_nil_r.
Qed.

Lemma universal_newlines_cr r :
  starts (fun d => N.eqb d LF) r = false ->
  universal_newlines (CR :: r) = LF :: universal_newlines r.
Proof.
  intros H. cbn [universal_newlines]. change (N.eqb CR CR) with true. cbv iota.
  destruct r as [|d r']; [reflexivity|]. cbn [starts] in H. rewrite H.
  reflexivity.
Qed.

Lemma lines_from_chars c :
  forall s cur l,
    In l (lines_from cur s) -> In c l -> In c cur \/ In c s.
Proof.
  induction s as [|d s IH]; intros cur l Hl Hc; cbn [lines_from] in Hl.
  - destruct cur as [|e cur]; [destruct Hl|]. destruct Hl as [<- | []].
    left. apply in_rev. exact Hc.
  - destruct (N.eqb d LF).
    + destruct Hl as [<- | Hl].
      * apply in_rev in Hc. destruct Hc as [<- | Hc]; [right; left; reflexivity|].
        left. exact Hc.
      * destruct (IH [] l Hl Hc) as [[] | H]. right. right. exact H.
    + destruct (IH (d :: cur) l Hl Hc) as [[<- | H] | H].
      * right. left. reflexivity.
      * left. exact H.
      * right. right. exact H.
Qed.

Lemma sanitize_vtt_no_cr content : ~ In CR (sanitize_vtt content).
Proof.
  unfold sanitize_vtt. intros H. apply join_chars in H.
  destruct H as [H | (x & Hx & Hc)].
  - change (py " ") with [SP] in H. destruct H as [H | []]. discriminate.
  - rewrite sanitize_lines_filter in Hx. apply filter_In in Hx.
    destruct Hx as [Hx _]. apply in_map_iff in Hx.
    destruct Hx as (l & <- & Hl). apply strip_incl in Hc.
    unfold file_lines in Hl.
    destruct (@lines_from_chars CR _ [] l Hl Hc) as [[] | H].
    exact (@universal_newlines_no_cr content H).
Qed.

Lemma starts_app_head (p : char -> bool) l r :
  l <> [] -> starts p (l ++ r) = starts p l.
Proof. destruct l; [congruence | reflexivity]. Qed.

Lemma segment_not_nil seg : segment_ok seg = true -> seg <> [].
Proof.
  unfold segment_ok. intros H E. subst. discriminate.
Qed.

Lemma join_not_nil sep x xs : x <> [] -> join sep (x :: xs) <> [].
Proof.
  intros Hx. cbn [join]. destruct xs; [exact Hx|].
  destruct x; [congruence | discriminate].
Qed.

Lemma join_cons2 sep x y ys :
  join sep (x :: y :: ys) = x ++ sep ++ join sep (y :: ys).
Proof. reflexivity. Qed.

Lemma join_trimmed sep :
  forall xs, forallb segment_ok xs = true -> trimmed (join sep xs) = true.
Proof.
  induction xs as [|x xs IH]; intros H; [reflexivity|].
  cbn [forallb] in H. apply andb_true_iff in H. destruct H as [Hx Hxs].
  pose proof (@segment_not_nil x Hx) as Hn.
  destruct xs as [|y ys]; cbn [join].
  - unfold segment_ok in Hx. apply andb_true_iff in Hx. tauto.
  - assert (Hy : y <> []).
    { cbn [forallb] in Hxs. apply andb_true_iff in Hxs.
      apply segment_not_nil. tauto. }
    specialize (IH Hxs). unfold trimmed in *.
    apply andb_true_iff in IH. destruct IH as [_ IH].
    unfold segment_ok, trimmed in Hx.
    apply andb_true_iff in Hx. destruct Hx as [_ Hx].
    apply andb_true_iff in Hx. destruct Hx as [Hx _].
    rewrite (@starts_app_head isspace x _ Hn), Hx. cbn [andb].
    rewrite !rev_app_distr, <- app_assoc.
    rewrite starts_app_head; [exact IH|].
    intros E. apply (f_equal (@rev char)) in E. rewrite rev_involutive in E.
    exact (@join_not_nil sep y ys Hy E).
Qed.

Lemma join_is_empty sep xs :
  forallb segment_ok xs = true -> is_empty (join sep xs) = no_lines xs.
Proof.
  destruct xs as [|x xs]; [reflexivity|]. cbn [forallb]. intros H.
  apply andb_true_iff in H. destruct H as [Hx _].
  pose proof (@join_not_nil sep x xs (@segment_not_nil x Hx)) as Hn.
  destruct (join sep (x :: xs)) eqn:E; [exfalso; apply Hn; exact E | reflexivity].
Qed.

Lemma kept_segments_ok lines :
  forallb segment_ok (sanitize_lines lines) = true.
Proof.
  rewrite sanitize_lines_filter. apply forallb_forall. intros seg H.
  apply filter_In in H. destruct H as [Hin Hd]. apply in_map_iff in Hin.
  destruct Hin as (l & <- & _). unfold segment_ok.
  rewrite strip_trimmed, andb_true_r.
  apply negb_true_iff in Hd. unfold discarded in Hd.
  destruct (is_empty (strip l)); [discriminate | reflexivity].
Qed.

Lemma lines_from_line :
  forall l cur r,
    ~ In LF l ->
    lines_from cur (l ++ LF :: r) = (rev cur ++ l ++ [LF]) :: lines_from [] r.
Proof.
  induction l as [|c l IH]; intros cur r H; cbn [app lines_from].
  - change (N.eqb LF LF) with true. reflexivity.
  - destruct (N.eqb_spec c LF) as [-> | _]; [exfalso; apply H; left; reflexivity|].
    rewrite IH by (intros Hin; apply H; right; exact Hin).
    cbn [rev]. rewrite <- app_assoc. reflexivity.
Qed.

Lemma lines_from_last :
  forall l cur,
    ~ In LF l ->
    lines_from cur l
    = match rev cur ++ l with [] => [] | t => [t] end.
Proof.
  induction l as [|c l IH]; intros cur H; cbn [lines_from].
  - rewrite app_nil_r. destruct cur as [|d cur]; [reflexivity|].
    destruct (rev (d :: cur)) eqn:E; [|reflexivity].
    apply (f_equal (@length _)) in E. rewrite length_rev in E. discriminate.
  - destruct (N.eqb_spec c LF) as [-> | _]; [exfalso; apply H; left; reflexivity|].
    rewrite IH by (intros Hin; apply H; right; exact Hin).
    cbn [rev]. rewrite <- app_assoc. reflexivity.
Qed.

Lemma plain_line_spec l : plain_line l = true -> ~ In LF l /\ ~ In CR l.
Proof.
  unfold plain_line. intros H. apply andb_true_iff in H. destruct H as [H1 H2].
  apply negb_true_iff in H1. apply negb_true_iff in H2.
  split; apply has_char_false; assumption.
Qed.

(** Reading the lines back from their LF-joined text loses at most an
    empty last line, which the loop would discard. *)
Lemma kept_of_joined_lines :
  forall ls,
    forallb plain_line ls = true ->
    filter (fun l => negb (discarded l))
      (map strip (lines_from [] (join [LF] ls)))
    = filter (fun l => negb (discarded l)) (map strip ls).
Proof.
  induction ls as [|x ls IH]; intros H; [reflexivity|].
  cbn [forallb] in H. apply andb_true_iff in H. destruct H as [Hx Hls].
  destruct (@plain_line_spec x Hx) as [Hlf _].
  destruct ls as [|y ys]; [cbn [join] | rewrite join_cons2].
  - rewrite (@lines_from_last x [] Hlf). cbn [rev app].
    destruct x as [|c x']; reflexivity.
  - cbn [app]. rewrite (@lines_from_line x [] _ Hlf). cbn [rev app map filter].
    rewrite strip_newline, (IH Hls). reflexivity.
Qed.

Lemma join_no_cr sep ls :
  ~ In CR sep -> forallb plain_line ls = true -> ~ In CR (join sep ls).
Proof.
  intros Hsep H Hin. apply join_chars in Hin.
  destruct Hin as [Hin | (x & Hx & Hc)]; [auto|].
  rewrite forallb_forall in H. destruct (@plain_line_spec x (H x Hx)). auto.
Qed.

Lemma join_head_not_lf ls :
  forallb plain_line ls = true ->
  starts (fun d => N.eqb d LF) (join [CR] ls) = false.
Proof.
  destruct ls as [|x ls]; [reflexivity|]. cbn [forallb]. intros H.
  apply andb_true_iff in H. destruct H as [Hx _].
  destruct (@plain_line_spec x Hx) as [Hlf _].
  assert (Hh : starts (fun d => N.eqb d LF) (x ++ [CR]) = false).
  { destruct x as [|c x']; [reflexivity|]. cbn [app starts].
    apply N.eqb_neq. intros ->. apply Hlf. left. reflexivity. }
  cbn [join]. destruct ls as [|y ys].
  - destruct x as [|c x']; [reflexivity | exact Hh].
  - destruct x as [|c x']; [reflexivity | exact Hh].
Qed.

Lemma universal_newlines_join_crlf :
  forall ls,
    forallb plain_line ls = true ->
    universal_newlines (join [CR; LF] ls) = join [LF] ls.
Proof.
  induction ls as [|x ls IH]; intros H; [reflexivity|].
  cbn [forallb] in H. apply andb_true_iff in H. destruct H as [Hx Hls].
  destruct (@plain_line_spec x Hx) as [_ Hcr].
  destruct ls as [|y ys]; [cbn [join] | rewrite !join_cons2].
  - apply universal_newlines_id. exact Hcr.
  - rewrite (@universal_newlines_app x _ Hcr). cbn [app universal_newlines].
    change (N.eqb CR CR) with true. change (N.eqb LF LF) with true. cbv iota.
    rewrite (IH Hls). reflexivity.
Qed.

Lemma universal_newlines_join_cr :
  forall ls,
    forallb plain_line ls = true ->
    universal_newlines (join [CR] ls) = join [LF] ls.
Proof.
  induction ls as [|x ls IH]; intros H; [reflexivity|].
  cbn [forallb] in H. apply andb_true_iff in H. destruct H as [Hx Hls].
  destruct (@plain_line_spec x Hx) as [_ Hcr].
  destruct ls as [|y ys]; [cbn [join] | rewrite !join_cons2].
  - apply universal_newlines_id. exact Hcr.
  - rewrite (@universal_newlines_app x _ Hcr). cbn [app].
    rewrite (@universal_newlines_cr _ (@join_head_not_lf (y :: ys) Hls)).
    rewrite (IH Hls). reflexivity.
Qed.

(** X10: the output of [sanitize_vtt] holds no line break, LF or CR,
    whatever line ends the file uses. *)
Theorem sanitize_vtt_single_line (content : str) :
  has_char LF (sanitize_vtt content) = false /\
  has_char CR (sanitize_vtt content) = false.
Proof.
  split; apply has_char_false;
    [apply sanitize_vtt_no_newline | apply sanitize_vtt_no_cr].
Qed.

(** X11: the output of [sanitize_vtt] neither starts nor ends with a
    whitespace character, and it is empty exactly when the loop kept no
    line. *)
Theorem sanitize_vtt_trimmed (content : str) :
  starts isspace (sanitize_vtt content) = false /\
  starts isspace (rev (sanitize_vtt content)) = false /\
  is_empty (sanitize_vtt content)
  = no_lines (sanitize_lines (file_lines content)).
Proof.
  unfold sanitize_vtt.
  pose proof (@kept_segments_ok (file_lines content)) as Hk.
  pose proof (@join_trimmed (py " ") _ Hk) as Ht. unfold trimmed in Ht.
  apply andb_true_iff in Ht. destruct Ht as [H1 H2].
  apply negb_true_iff in H1. apply negb_true_iff in H2.
  split; [exact H1|]. split; [exact H2|]. apply join_is_empty. exact Hk.
Qed.

(** X12: for lines that hold no line break, [sanitize_vtt] of the file
    that holds them joined by LF is the loop run over the lines
    themselves, joined by one blank. *)
Theorem sanitize_vtt_of_lines (ls : list str) :
  forallb plain_line ls = true ->
  sanitize_vtt (join [LF] ls) = join (py " ") (sanitize_lines ls).
Proof.
  intros H. unfold sanitize_vtt, file_lines. f_equal.
  rewrite universal_newlines_id
    by (apply join_no_cr; [intros [E | []]; discriminate | exact H]).
  rewrite !sanitize_lines_filter. apply kept_of_joined_lines. exact H.
Qed.

(** X13: the line ends of the file do not show in the output: the same
    lines joined by CR LF, by CR or by LF give the same transcript. *)
Theorem sanitize_vtt_line_ends (ls : list str) :
  forallb plain_line ls = true ->
  sanitize_vtt (join [CR; LF] ls) = sanitize_vtt (join [LF] ls) /\
  sanitize_vtt (join [CR] ls) = sanitize_vtt (join [LF] ls).
Proof.
  intros H. unfold sanitize_vtt, file_lines.
  rewrite (@universal_newlines_join_crlf ls H), (@universal_newlines_join_cr ls H).
  rewrite universal_newlines_id
    by (apply join_no_cr; [intros [E | []]; discriminate | exact H]).
  auto.
Qed.

Lemma str_eqb_eq a : forall b, str_eqb a b = true -> a = b.
Proof.
  induction a as [|x a IH]; intros [|y b] H; cbn [str_eqb] in H;
    try discriminate; [reflexivity|].
  apply andb_true_iff in H. destruct H as [Hx H]. apply N.eqb_eq in Hx.
  subst. f_equal. auto.
Qed.

Lemma startswith_before_sep c p :
  ~ In c p ->
  forall y r, startswith p (y ++ c :: r) = startswith p y.
Proof.
  induction p as [|a p IH]; intros Hp y r; [destruct y; reflexivity|].
  destruct y as [|d y]; cbn [app startswith].
  - destruct (N.eqb_spec a c) as [-> | _]; [|reflexivity].
    exfalso. apply Hp. left. reflexivity.
  - rewrite IH by (intros Hin; apply Hp; right; exact Hin). reflexivity.
Qed.

(** An occurrence of [p] cannot lie across a character that [p] does not
    hold. *)
Lemma contains_across_sep c p :
  p <> [] -> ~ In c p ->
  forall x r,
    contains p (x ++ c :: r) = (contains p x || contains p r)%bool.
Proof.
  intros Hn Hp. induction x as [|d x IH]; intros r.
  - cbn [app contains].
    pose proof (@startswith_before_sep c p Hp [] r) as E. cbn [app] in E.
    rewrite E. destruct p as [|a p']; [congruence | reflexivity].
  - cbn [app contains]. rewrite IH.
    pose proof (@startswith_before_sep c p Hp (d :: x) r) as E.
    cbn [app] in E. rewrite E, orb_assoc. reflexivity.
Qed.

Lemma in_join_sep sep x y ys c : In c sep -> In c (join sep (x :: y :: ys)).
Proof.
  intros H. rewrite join_cons2. apply in_or_app. right.
  apply in_or_app. left. exact H.
Qed.

(** The joined segments are no line the loop would discard. *)
Lemma joined_not_discarded :
  forall xs,
    xs <> [] ->
    forallb (fun seg => negb (discarded seg)) xs = true ->
    discarded (join (py " ") xs) = false.
Proof.
  induction xs as [|x xs IH]; intros Hn H; [congruence|].
  cbn [forallb] in H. apply andb_true_iff in H. destruct H as [Hx Hxs].
  apply negb_true_iff in Hx.
  destruct xs as [|y ys]; [exact Hx|].
  specialize (IH ltac:(discriminate) Hxs).
  unfold discarded in *.
  repeat (apply orb_false_iff in Hx; destruct Hx as [Hx ?]).
  repeat (apply orb_false_iff in IH; destruct IH as [IH ?]).
  assert (Hsp : In SP (join (py " ") (x :: y :: ys)))
    by (apply in_join_sep; left; reflexivity).
  repeat (apply orb_false_iff; split).
  - destruct (join (py " ") (x :: y :: ys)); [destruct Hsp | reflexivity].
  - destruct (str_eqb (join (py " ") (x :: y :: ys)) (py "WEBVTT")) eqn:E;
      [|reflexivity].
    apply str_eqb_eq in E. rewrite E in Hsp. vm_compute in Hsp.
    repeat (destruct Hsp as [Hsp | Hsp]; [discriminate|]). destruct Hsp.
  - unfold str_isdigit. apply andb_false_iff. right.
    destruct (forallb isdigit (join (py " ") (x :: y :: ys))) eqn:E;
      [|reflexivity].
    rewrite forallb_forall in E. specialize (E SP Hsp). discriminate.
  - rewrite join_cons2. change (py " " ++ join (py " ") (y :: ys))
      with (SP :: join (py " ") (y :: ys)).
    rewrite contains_across_sep.
    + apply orb_false_iff. split; assumption.
    + discriminate.
    + change (py "-->") with [45; 45; 62].
      intros [E | [E | [E | []]]]; discriminate.
Qed.

(** X22: [sanitize_vtt] leaves its own output as it is: the transcript
    is one line that the loop keeps, already stripped. *)
Theorem sanitize_vtt_again (content : str) :
  sanitize_vtt (sanitize_vtt content) = sanitize_vtt content.
Proof.
  set (out := sanitize_vtt content).
  assert (Hk : forallb segment_ok (sanitize_lines (file_lines content)) = true)
    by apply kept_segments_ok.
  assert (Ht : trimmed out = true) by (apply join_trimmed; exact Hk).
  unfold sanitize_vtt at 1. unfold file_lines.
  rewrite universal_newlines_id by apply sanitize_vtt_no_cr.
  rewrite (@lines_from_last out [] (sanitize_vtt_no_newline content)).
  cbn [rev app]. destruct out as [|c t] eqn:Eo; [reflexivity|].
  unfold sanitize_lines. cbn [fold_left]. rewrite sanitize_step_eq.
  rewrite (trimmed_strip _ Ht). cbn [app].
  assert (Hd : discarded (c :: t) = false).
  { rewrite <- Eo. unfold out, sanitize_vtt. apply joined_not_discarded.
    - intros E. unfold out, sanitize_vtt in Eo. rewrite E in Eo. discriminate.
    - rewrite sanitize_lines_filter. apply forallb_forall. intros seg Hseg.
      apply filter_In in Hseg. tauto. }
  rewrite Hd. reflexivity.
Qed.

(* ===================================================================== *)
(** ** What [sanitize_vtt] discards *)
(* ===================================================================== *)

(** [strip] takes whitespace away at the two ends, and nothing else. *)
Lemma strip_ends s :
  exists a b,
    s = a ++ strip s ++ b /\
    forallb isspace a = true /\ forallb isspace b = true.
Proof.
  exists (takewhile isspace s), (rev (takewhile isspace (rev (lstrip s)))).
  split; [|split].
  - pose proof (lstrip_split (rev (lstrip s))) as E.
    apply (f_equal (@rev char)) in E.
    rewrite rev_involutive, rev_app_distr in E.
    unfold strip, rstrip. rewrite <- E. apply lstrip_split.
  - apply takewhile_all.
  - apply forallb_forall. intros c Hc. apply in_rev in Hc.
    pose proof (takewhile_all isspace (rev (lstrip s))) as H.
    rewrite forallb_forall in H. auto.
Qed.

Lemma str_eqb_refl a : str_eqb a a = true.
Proof.
  induction a as [|x a IH]; [reflexivity|]. cbn [str_eqb].
  rewrite N.eqb_refl, IH. reflexivity.
Qed.

Lemma startswith_spec p :
  forall s, startswith p s = true <-> exists b, s = p ++ b.
Proof.
  induction p as [|x p IH]; intros s.
  - split; [intros _; exists s; reflexivity | reflexivity].
  - destruct s as [|y s]; cbn [startswith].
    + split; [discriminate | intros (b & E); discriminate].
    + rewrite andb_true_iff, N.eqb_eq, IH. split.
      * intros (-> & b & ->). exists b. reflexivity.
      * intros (b & E). injection E as -> ->. split; [reflexivity|].
        exists b. reflexivity.
Qed.

Lemma contains_spec p :
  forall s, contains p s = true <-> exists a b, s = a ++ p ++ b.
Proof.
  induction s as [|c s IH]; cbn [contains]; rewrite orb_true_iff, startswith_spec.
  - split.
    + intros [(b & E) | H]; [|discriminate]. exists [], b. exact E.
    + intros (a & b & E). left. destruct a; [|discriminate]. exists b. exact E.
  - rewrite IH. split.
    + intros [(b & E) | (a & b & E)].
      * exists [], b. exact E.
      * exists (c :: a), b. rewrite E. reflexivity.
    + intros (a & b & E). destruct a as [|d a].
      * left. exists b. exact E.
      * right. injection E as _ E. exists a, b. exact E.
Qed.

Lemma str_isdigit_spec l :
  str_isdigit l = true <-> l <> [] /\ forall c, In c l -> isdigit c = true.
Proof.
  unfold str_isdigit. rewrite andb_true_iff, negb_true_iff, forallb_forall.
  destruct l; cbn [is_empty]; intuition congruence.
Qed.

(** The four tests of the loop, spelled out. *)
Lemma discarded_spec l :
  discarded l = true <->
  l = [] \/ l = py "WEBVTT" \/
  (l <> [] /\ forall c, In c l -> isdigit c = true) \/
  exists a b, l = a ++ py "-->" ++ b.
Proof.
  unfold discarded. rewrite !orb_true_iff, str_isdigit_spec, contains_spec.
  split.
  - intros [[[H | H] | H] | H]; [left | right; left | right; right; left
                                | right; right; right]; try exact H.
    + destruct l; [reflexivity | discriminate].
    + apply str_eqb_eq. exact H.
  - intros [H | [H | [H | H]]]; [left; left; left | left; left; right
                                | left; right | right]; try exact H.
    + rewrite H. reflexivity.
    + rewrite H. apply str_eqb_refl.
Qed.

(** On ASCII the digits of [str.isdigit] are the decimal digits. *)
Lemma isdigit_ascii c : c < 128 -> isdigit c = in_range 48 57 c.
Proof.
  intros H. unfold isdigit, ascii_digit.
  apply N.ltb_lt in H. rewrite H. reflexivity.
Qed.

(** The transcript as a whole is no line the loop would discard, unless
    it is empty. *)
Lemma transcript_not_discardable content :
  contains (py "-->") (sanitize_vtt content) = false /\
  str_eqb (sanitize_vtt content) (py "WEBVTT") = false /\
  str_isdigit (sanitize_vtt content) = false.
Proof.
  unfold sanitize_vtt.
  destruct (sanitize_lines (file_lines content)) as [|x xs] eqn:E.
  - repeat split.
  - assert (H : discarded (join (py " ") (x :: xs)) = false).
    { apply joined_not_discarded; [discriminate|].
      rewrite <- E, sanitize_lines_filter. apply forallb_forall.
      intros seg Hseg. apply filter_In in Hseg. tauto. }
    unfold discarded in H.
    repeat (apply orb_false_iff in H; destruct H as [H ?]).
    auto.
Qed.

Lemma split_from_chars sep c :
  forall s cur p,
    In p (split_from sep cur s) -> In c p -> In c cur \/ In c s.
Proof.
  induction s as [|d s IH]; intros cur p Hp Hc; cbn [split_from] in Hp.
  - destruct Hp as [<- | []]. left. apply in_rev. exact Hc.
  - destruct (N.eqb d sep).
    + destruct Hp as [<- | Hp]; [left; apply in_rev; exact Hc|].
      destruct (IH [] p Hp Hc) as [[] | H]. right. right. exact H.
    + destruct (IH (d :: cur) p Hp Hc) as [[<- | H] | H].
      * right. left. reflexivity.
      * left. exact H.
      * right. right. exact H.
Qed.

(** Joining the pieces of [split] gives the text back. *)
Lemma join_split sep :
  forall s cur, join [sep] (split_from sep cur s) = rev cur ++ s.
Proof.
  induction s as [|c s IH]; intros cur; cbn [split_from].
  - cbn [join]. symmetry. apply app_nil_r.
  - destruct (N.eqb_spec c sep) as [-> | Hc].
    + specialize (IH []). cbn [rev app] in IH.
      destruct (split_from sep [] s) as [|y ys] eqn:E.
      * destruct s as [|d s']; cbn [split_from] in E; [discriminate|].
        destruct (N.eqb d sep); [discriminate|].
        cbn [join] in IH. discriminate.
      * rewrite join_cons2, IH. reflexivity.
    + rewrite IH. cbn [rev]. rewrite <- app_assoc. reflexivity.
Qed.

(** Every payload is, once its line ends are translated, a list of lines
    without line break joined by LF. *)
Lemma payload_lines content :
  exists ls,
    forallb plain_line ls = true /\
    universal_newlines content = join [LF] ls /\
    sanitize_vtt content = sanitize_vtt (join [LF] ls).
Proof.
  exists (split LF (universal_newlines content)).
  assert (E : join [LF] (split LF (universal_newlines content))
              = universal_newlines content)
    by (unfold split; apply join_split).
  split; [|split].
  - apply forallb_forall. intros p Hp. unfold plain_line.
    apply andb_true_iff. split; apply negb_true_iff, has_char_false.
    + apply (@split_from_pieces LF (universal_newlines content) [] p Hp).
      intros [].
    + intros Hc.
      destruct (@split_from_chars LF CR (universal_newlines content) [] p Hp Hc)
        as [[] | H].
      exact (@universal_newlines_no_cr content H).
  - symmetry. exact E.
  - rewrite E. unfold sanitize_vtt, file_lines.
    rewrite (@universal_newlines_id (universal_newlines content))
      by apply universal_newlines_no_cr.
    reflexivity.
Qed.

Lemma sanitize_vtt_lf ls :
  forallb plain_line ls = true ->
  sanitize_vtt (join [LF] ls)
  = join (py " ") (filter (fun l => negb (discarded l)) (map strip ls)).
Proof.
  intros H. unfold sanitize_vtt, file_lines. f_equal.
  rewrite universal_newlines_id
    by (apply join_no_cr; [intros [E | []]; discriminate | exact H]).
  rewrite sanitize_lines_filter. apply kept_of_joined_lines. exact H.
Qed.

(** C8, amended: the digit test of the loop is [str.isdigit], which holds
    of the decimal digits and of other digits too.  For lines [ls] that
    hold no line break, [sanitize_vtt] of the file that holds them,
    joined by LF, by CR LF or by CR, is the stripped lines that are not
    discarded, in their order, joined by one blank.  [strip] takes away
    whitespace at the two ends of the line and nothing else.  A stripped
    line is discarded exactly when it is empty, is WEBVTT, is not empty
    and all digits for [str.isdigit] (on ASCII: the decimal digits), or
    holds [-->].  So no segment is empty, the header, all digits or holds
    [-->]; the transcript of any payload holds no [-->] at all and is, as
    a whole, neither the header nor all digits; and every payload is such
    a file, its line ends translated. *)
Theorem sanitize_vtt_discards (ls : list str) :
  forallb plain_line ls = true ->
  let kept := filter (fun l => negb (discarded l)) (map strip ls) in
  (sanitize_vtt (join [LF] ls) = join (py " ") kept /\
   sanitize_vtt (join [CR; LF] ls) = join (py " ") kept /\
   sanitize_vtt (join [CR] ls) = join (py " ") kept) /\
  (forall l, exists a b,
      l = a ++ strip l ++ b /\
      forallb isspace a = true /\ forallb isspace b = true /\
      trimmed (strip l) = true) /\
  (forall l,
      discarded l = true <->
      l = [] \/ l = py "WEBVTT" \/
      (l <> [] /\ forall c, In c l -> isdigit c = true) \/
      exists a b, l = a ++ py "-->" ++ b) /\
  (forall c, c < 128 -> isdigit c = in_range 48 57 c) /\
  forallb (fun seg =>
             negb (is_empty seg) && negb (str_eqb seg (py "WEBVTT"))
             && negb (str_isdigit seg) && negb (contains (py "-->") seg))%bool
          kept = true /\
  (forall content,
      contains (py "-->") (sanitize_vtt content) = false /\
      str_eqb (sanitize_vtt content) (py "WEBVTT") = false /\
      str_isdigit (sanitize_vtt content) = false) /\
  (forall content, exists ls',
      forallb plain_line ls' = true /\
      universal_newlines content = join [LF] ls' /\
      sanitize_vtt content = sanitize_vtt (join [LF] ls')).
Proof.
  intros H. cbv zeta.
  split; [|split; [|split; [|split; [|split; [|split]]]]].
  - rewrite <- (@sanitize_vtt_lf ls H). split; [reflexivity|].
    unfold sanitize_vtt, file_lines.
    rewrite (@universal_newlines_join_crlf ls H),
      (@universal_newlines_join_cr ls H).
    rewrite universal_newlines_id
      by (apply join_no_cr; [intros [E | []]; discriminate | exact H]).
    split; reflexivity.
  - intros l. destruct (strip_ends l) as (a & b & E & Ha & Hb).
    exists a, b. split; [exact E|]. split; [exact Ha|]. split; [exact Hb|].
    apply strip_trimmed.
  - apply discarded_spec.
  - apply isdigit_ascii.
  - apply forallb_forall. intros seg Hseg. apply filter_In in Hseg.
    destruct Hseg as [_ Hd]. apply negb_true_iff in Hd. unfold discarded in Hd.
    repeat (apply orb_false_iff in Hd; destruct Hd as [Hd ?]).
    repeat (apply andb_true_iff; split); apply negb_true_iff; assumption.
  - apply transcript_not_discardable.
  - apply payload_lines.
Qed.

Lemma words_across c :
  is_word c = false ->
  forall l r, words (l ++ c :: r) = words l ++ words r.
Proof.
  intros Hc. induction l as [|a l IH]; intros r.
  - cbn [app]. apply words_other_start. exact Hc.
  - cbn [app words]. rewrite IH.
    destruct (is_word a); [|reflexivity].
    destruct l as [|b l'].
    + cbn [app starts words]. rewrite Hc. reflexivity.
    + cbn [app starts]. destruct (is_word b) eqn:Hb; [|reflexivity].
      rewrite (@words_word_start (b :: l') Hb). reflexivity.
Qed.

Lemma words_join :
  forall xs, words (join (py " ") xs) = flat_map words xs.
Proof.
  induction xs as [|x xs IH]; [reflexivity|].
  destruct xs as [|y ys].
  - cbn [join flat_map]. symmetry. apply app_nil_r.
  - rewrite join_cons2. change (py " " ++ join (py " ") (y :: ys))
      with (SP :: join (py " ") (y :: ys)).
    rewrite words_across by reflexivity. rewrite IH. reflexivity.
Qed.

(** X23: the words of the transcript the handler shows,
    [clean_hesitations (sanitize_vtt content)], are the words of the
    kept lines that are no filler, line after line and unchanged. *)
Theorem transcript_words (content : str) :
  words (clean_hesitations (sanitize_vtt content))
  = filter (fun w => negb (is_filler FILLERS w))
      (flat_map words (sanitize_lines (file_lines content))).
Proof.
  unfold clean_hesitations. rewrite (clean_words FILLERS _ FILLERS_good).
  unfold sanitize_vtt. rewrite words_join. reflexivity.
Qed.

(* ===================================================================== *)
(** ** Further properties of [create_pdf] and [split_long_line] *)
(* ===================================================================== *)

Lemma story_loop :
  forall paragraphs story,
    fold_left
      (fun story para =>
         if is_empty (strip para) then story
         else story ++ [Paragraph (strip para) Normal; Spacer 1 8])
      paragraphs story
    = story ++ flat_map paragraph_of paragraphs.
Proof.
  induction paragraphs as [|p ps IH]; intros story; cbn [fold_left flat_map].
  - symmetry. apply app_nil_r.
  - rewrite IH. unfold paragraph_of at 2.
    destruct (is_empty (strip p)); [reflexivity|].
    rewrite <- app_assoc. reflexivity.
Qed.

(** X15: no body paragraph of the story of [create_pdf] is empty, starts
    or ends with whitespace, or holds a newline. *)
Theorem create_pdf_paragraphs (text : str) :
  forallb flowable_ok (create_pdf text) = true.
Proof.
  unfold create_pdf. rewrite story_loop. rewrite forallb_app.
  apply andb_true_iff. split; [reflexivity|].
  apply forallb_forall. intros f Hf. apply in_flat_map in Hf.
  destruct Hf as (p & Hp & Hf). unfold paragraph_of in Hf.
  destruct (is_empty (strip p)) eqn:Ee; [destruct Hf|].
  destruct Hf as [<- | [<- | []]]; [|reflexivity].
  cbn [flowable_ok]. unfold segment_ok. rewrite Ee, strip_trimmed. cbn [negb andb].
  apply negb_true_iff, has_char_false. intros H. apply strip_incl in H.
  revert H. apply (@split_from_pieces LF text [] p Hp). intros [].
Qed.

Lemma firstn_add (n m : nat) (l : str) :
  firstn (n + m) l = firstn n l ++ firstn m (skipn n l).
Proof.
  revert l. induction n as [|n IH]; intros l; [reflexivity|].
  destruct l as [|c l]; cbn [Nat.add firstn skipn app].
  - rewrite firstn_nil. reflexivity.
  - rewrite IH. reflexivity.
Qed.

Lemma chunks_concat (m : nat) (l : str) :
  forall n,
    concat (map (fun k => slice l (k * m) (k * m + m)) (seq 0 n))
    = firstn (n * m) l.
Proof.
  induction n as [|n IH]; [reflexivity|].
  rewrite seq_S, map_app, concat_app, IH. cbn [map concat Nat.add].
  rewrite app_nil_r. unfold slice.
  replace (n * m + m - n * m)%nat with m by lia.
  rewrite <- firstn_add. f_equal. lia.
Qed.

Lemma range_count_bounds (len m : nat) :
  (0 < m)%nat ->
  (len <= range_count len m * m /\ range_count len m * m < len + m)%nat.
Proof.
  intros Hm. unfold range_count.
  pose proof (Nat.div_mod_eq (len + m - 1) m) as E.
  pose proof (Nat.mod_upper_bound (len + m - 1) m) as B.
  nia.
Qed.

Lemma slice_length (l : str) (i j : nat) :
  length (slice l i j) = Nat.min (j - i) (length l - i).
Proof. unfold slice. rewrite length_firstn, length_skipn. reflexivity. Qed.

(** X16: for a positive [max_chars], the pieces of [split_long_line],
    put together again, are the line. *)
Theorem split_long_line_concat (line : str) (max_chars : positive) :
  option_map (@concat char) (split_long_line line (Zpos max_chars))
  = Some line.
Proof.
  cbn [split_long_line option_map]. f_equal. rewrite chunks_concat.
  apply firstn_all2.
  apply (@range_count_bounds (length line) (Pos.to_nat max_chars)). lia.
Qed.

(** X17: for a positive [max_chars], no piece of [split_long_line] is
    empty or longer than [max_chars], and every piece but the last has
    exactly [max_chars] characters. *)
Theorem split_long_line_sizes (line : str) (max_chars : positive) :
  option_map
    (fun pieces =>
       (forallb (fun c => Nat.leb 1 (length c)
                          && Nat.leb (length c) (Pos.to_nat max_chars))
                pieces
        && forallb (fun c => Nat.eqb (length c) (Pos.to_nat max_chars))
                   (removelast pieces))%bool)
    (split_long_line line (Zpos max_chars))
  = Some true.
Proof.
  cbn [split_long_line option_map]. f_equal.
  set (m := Pos.to_nat max_chars). assert (Hm : (0 < m)%nat) by (unfold m; lia).
  destruct (@range_count_bounds (length line) m Hm) as [Hlo Hhi].
  set (n := range_count (length line) m) in *.
  apply andb_true_iff. split.
  - apply forallb_forall. intros c Hc. apply in_map_iff in Hc.
    destruct Hc as (k & <- & Hk). apply in_seq in Hk.
    rewrite slice_length. apply andb_true_iff.
    split; [apply Nat.leb_le | apply Nat.leb_le]; nia.
  - destruct n as [|n'] eqn:En; [reflexivity|].
    rewrite seq_S, map_app. cbn [map]. rewrite removelast_last.
    apply forallb_forall. intros c Hc. apply in_map_iff in Hc.
    destruct Hc as (k & <- & Hk). apply in_seq in Hk.
    rewrite slice_length. apply Nat.eqb_eq. nia.
Qed.

(* ===================================================================== *)
(** ** Further properties of the button handler *)
(* ===================================================================== *)

Lemma second_request_index (w : world) (url : str) :
  length (requests w ++ [url]) = S (length (requests w)).
Proof. rewrite length_app. simpl. lia. Qed.

(** X19: when the second request is not answered with 200, the handler
    stops: besides the errors of the two calls nothing is shown (no
    transcript, no download), and subtitle.vtt is what the first call
    left: its response when that was a 200, the old file otherwise. *)
Theorem handler_second_request_fails (sub_path : str) (w : world) :
  let url := full_url_of sub_path in
  let r1 := server w (length (requests w)) url in
  let r2 := server w (S (length (requests w))) url in
  N.eqb (status_code r2) 200 = false ->
  setup_sanitize_download true sub_path w
  = (Stopped,
     {| server := server w;
        requests := requests w ++ [url; url];
        subtitle_file := if N.eqb (status_code r1) 200
                         then Some (content r1) else subtitle_file w;
        page := page w ++ error_of r1 ++ [StError (status_code r2)] |}).
Proof.
  cbv zeta. unfold full_url_of. intros H2.
  unfold setup_sanitize_download. cbv zeta.
  set (url := BASE_URL ++ _) in *.
  unfold download_subtitles_file, bind, requests_get, write_subtitle_file,
    show, ret, st_stop, read_subtitle_file, error_of.
  cbn [requests server subtitle_file page fst snd].
  destruct (N.eqb (status_code (server w (length (requests w)) url)) 200);
    cbn [requests server subtitle_file page fst snd];
    rewrite second_request_index, H2;
    cbn [requests server subtitle_file page fst snd];
    rewrite <- ?app_assoc; reflexivity.
Qed.

(** X20: when the second request is answered with 200, subtitle.vtt
    holds the body of that response once the handler is through: whatever
    the first call wrote or found there is gone. *)
Theorem handler_second_request_succeeds (sub_path : str) (w : world) :
  let url := full_url_of sub_path in
  let r2 := server w (S (length (requests w))) url in
  N.eqb (status_code r2) 200 = true ->
  subtitle_file (snd (setup_sanitize_download true sub_path w))
  = Some (content r2).
Proof.
  cbv zeta. unfold full_url_of. intros H2.
  unfold setup_sanitize_download. cbv zeta.
  set (url := BASE_URL ++ _) in *.
  unfold download_subtitles_file, bind, requests_get, write_subtitle_file,
    show, ret, st_stop, read_subtitle_file.
  cbn [requests server subtitle_file page fst snd].
  destruct (N.eqb (status_code (server w (length (requests w)) url)) 200);
    cbn [requests server subtitle_file page fst snd];
    rewrite second_request_index, H2;
    cbn [requests server subtitle_file page fst snd];
    destruct (is_empty
                (sanitize_vtt
                   (content (server w (S (length (requests w))) url))));
    reflexivity.
Qed.

(** X21: a path typed without its leading slash is handled as the path
    with it: the same requests, the same file, the same page. *)
Theorem handler_adds_slash (pressed : bool) (sub_path : str) (w : world) :
  startswith (py "/") sub_path = false ->
  setup_sanitize_download pressed (py "/" ++ sub_path) w
  = setup_sanitize_download pressed sub_path w.
Proof.
  intros H. unfold setup_sanitize_download. rewrite H.
  change (py "/") with [47]. cbn [app startswith].
  change (N.eqb 47 47) with true. cbn [andb]. reflexivity.
Qed.

End Program.

(* ===================================================================== *)
(** ** The examples, on the Latin-1 table *)
(* ===================================================================== *)

(** The parser does not return the text the specification gives for its
    example: the "um" of the last line is still in it. *)
Lemma example_parse_keeps_um :
  @str_eqb (@sanitize_vtt latin1 (join [LF] example_lines))
           (py "Uh, hello world. this is, hmm a test") = false.
Proof. vm_compute. reflexivity. Qed.

(** The line of the two superscript digits U+00B2 and U+00B3 is not
    empty, is not the header, holds no decimal digit and no arrow, and
    yet the parser discards it: [str.isdigit] holds of it. *)
Lemma superscript_line_discarded :
  discarded_as_specified [178; 179] = false /\
  @discarded latin1 (@strip latin1 [178; 179]) = true /\
  @sanitize_vtt latin1 (py "one" ++ [LF; 178; 179; LF] ++ py "two")
  = py "one two".
Proof. repeat split; vm_compute; reflexivity. Qed.

(** [sanitize_vtt_discards] at the example payload. *)
Lemma sanitize_vtt_discards_example :
  forallb plain_line example_lines = true /\
  @sanitize_vtt latin1 (join [LF] example_lines)
  = join (py " ")
      (filter (fun l => negb (@discarded latin1 l))
         (map (@strip latin1) example_lines)) /\
  @sanitize_vtt latin1 (join [LF] example_lines)
  = py "Uh, hello world. um this is, hmm a test".
Proof.
  split; [reflexivity|]. split; [|vm_compute; reflexivity].
  exact (proj1 (proj1 (@sanitize_vtt_discards latin1 example_lines eq_refl))).
Defined.


(** After a failed first request the handler sends the second one, and
    shows the transcript under the error of the first. *)
Example second_request_after_failure :
  let (result, w) :=
    @setup_sanitize_download latin1 true (py "texttrack/1.vtt") fresh_world in
  result = Done tt /\
  requests w = [py "https://player.vimeo.com/texttrack/1.vtt";
                py "https://player.vimeo.com/texttrack/1.vtt"] /\
  firstn 2 (page w)
  = [StError 404;
     TextArea (py "Cleaned Subtitles") (py "hello world. this is, a test")].
Proof. vm_compute. repeat split. Qed.

(** [clean_hesitations_keeps_clean_text] at "umbrella is red". *)
Lemma keeps_clean_text_example :
  (existsb (is_filler FILLERS) (@words latin1 (py "umbrella is red")) = false /\
   adjacent (@double_space latin1) (py "umbrella is red") = false /\
   adjacent (@space_before_punct latin1) (py "umbrella is red") = false /\
   starts (N.eqb COMMA) (py "umbrella is red") = false /\
   @trimmed latin1 (py "umbrella is red") = true) /\
  @clean_hesitations latin1 (py "umbrella is red") = py "umbrella is red".
Proof.
  split; [repeat split; vm_compute; reflexivity|].
  apply (@clean_hesitations_keeps_clean_text latin1); vm_compute; reflexivity.
Defined.

(** [clean_hesitations_second_run] at "um, hi". *)
Lemma second_run_example :
  starts (N.eqb COMMA) (@clean_hesitations latin1 (py "um, hi")) = false /\
  @clean_hesitations latin1 (@clean_hesitations latin1 (py "um, hi"))
  = @clean_hesitations latin1 (py "um, hi").
Proof.
  split; [vm_compute; reflexivity|].
  apply (@clean_hesitations_second_run latin1). vm_compute. reflexivity.
Defined.


(** [remove_fillers_keeps_other_text] at "umbrella, hummus". *)
Lemma keeps_other_text_example :
  existsb (is_filler FILLERS) (@words latin1 (py "umbrella, hummus")) = false /\
  @remove_fillers latin1 FILLERS (py "umbrella, hummus") = py "umbrella, hummus".
Proof.
  split; [vm_compute; reflexivity|].
  apply (@remove_fillers_keeps_other_text latin1). vm_compute. reflexivity.
Defined.

(** [sanitize_vtt_of_lines] at the example payload. *)
Lemma sanitize_vtt_of_lines_example :
  forallb plain_line example_lines = true /\
  @sanitize_vtt latin1 (join [LF] example_lines)
  = join (py " ") (@sanitize_lines latin1 example_lines).
Proof.
  split; [reflexivity|].
  apply (@sanitize_vtt_of_lines latin1). reflexivity.
Defined.

(** [sanitize_vtt_line_ends] at the example payload. *)
Lemma sanitize_vtt_line_ends_example :
  forallb plain_line example_lines = true /\
  @sanitize_vtt latin1 (join [CR; LF] example_lines)
  = @sanitize_vtt latin1 (join [LF] example_lines) /\
  @sanitize_vtt latin1 (join [CR] example_lines)
  = @sanitize_vtt latin1 (join [LF] example_lines).
Proof.
  split; [reflexivity|].
  apply (@sanitize_vtt_line_ends latin1). reflexivity.
Defined.

(** [handler_second_request_fails] where the server is down and an old
    subtitle.vtt is there: the handler stops and the old file stays. *)
Lemma handler_fails_example :
  N.eqb (status_code
           (server stale_world 1 (full_url_of (py "texttrack/1.vtt")))) 200
  = false /\
  fst (@setup_sanitize_download latin1 true (py "texttrack/1.vtt") stale_world)
  = Stopped unit /\
  page (snd (@setup_sanitize_download latin1 true (py "texttrack/1.vtt")
               stale_world))
  = [StError 503; StError 503] /\
  subtitle_file (snd (@setup_sanitize_download latin1 true
                        (py "texttrack/1.vtt") stale_world))
  = Some (py "old text").
Proof.
  split; [reflexivity|].
  rewrite (@handler_second_request_fails latin1 (py "texttrack/1.vtt")
             stale_world eq_refl).
  repeat split.
Defined.

(** [handler_second_request_succeeds] where the first request is refused
    and the second answered. *)
Lemma handler_succeeds_example :
  N.eqb (status_code
           (server fresh_world 1 (full_url_of (py "texttrack/1.vtt")))) 200
  = true /\
  subtitle_file (snd (@setup_sanitize_download latin1 true
                        (py "texttrack/1.vtt") fresh_world))
  = Some (join [LF] example_lines).
Proof.
  split; [reflexivity|].
  exact (@handler_second_request_succeeds latin1 (py "texttrack/1.vtt")
           fresh_world eq_refl).
Defined.

(** [handler_adds_slash] at "texttrack/1.vtt". *)
Lemma handler_adds_slash_example :
  startswith (py "/") (py "texttrack/1.vtt") = false /\
  @setup_sanitize_download latin1 true (py "/texttrack/1.vtt") fresh_world
  = @setup_sanitize_download latin1 true (py "texttrack/1.vtt") fresh_world.
Proof.
  split; [reflexivity|].
  apply (@handler_adds_slash latin1 true (py "texttrack/1.vtt") fresh_world).
  reflexivity.
Defined.
